(** * Request-tracking API routes: a shallow embedding and its properties

    The development follows the TypeScript sources:
    - [ensureRequestsCollection] (server/db/initRequestsCollection),
    - the route handlers [PUT], [GET] and [PATCH] of the requests route, in
      the two revisions of the route file that carry a [PATCH] handler.
      The revisions have the same [PUT], [GET] and validators up to type
      annotations; their [PATCH] handlers read the result of
      [findOneAndUpdate] differently and are embedded one by one.  (The
      oldest revision of the file, with no [PATCH] and no check of the
      [status] parameter, is not embedded.)

    JavaScript values are embedded as an inductive type, JavaScript strings as
    lists of UTF-16 code units, the MongoDB database as a finite map from
    collection names to collections, and an [async] handler as a function in
    a state-and-exception monad over the database and a log of driver calls. *)

From stdpp Require Import gmap strings list sorting.
From Stdlib Require Import ZArith QArith Qround Lia.

#[local] Set Warnings "-register-all".
#[local] Open Scope Z_scope.

(** ** JavaScript strings *)

(** A JavaScript string is a sequence of UTF-16 code units; [length] counts
    code units. *)
Definition jsstring := list N.

(** String literals of the sources are ASCII. *)
Definition js (s : string) : jsstring :=
  (λ a, Ascii.N_of_ascii a) <$> String.list_ascii_of_string s.

Definition js_length (s : jsstring) : Z := Z.of_nat (length s).

(** WhiteSpace and LineTerminator code points of ECMAScript, the characters
    that [String.prototype.trim] and [parseInt] strip. *)
Definition isWhiteSpace (c : N) : bool :=
  bool_decide (c ∈ [0x09; 0x0A; 0x0B; 0x0C; 0x0D; 0x20; 0xA0; 0x1680;
                    0x2028; 0x2029; 0x202F; 0x205F; 0x3000; 0xFEFF]%N)
  || ((0x2000 <=? c)%N && (c <=? 0x200A)%N).

Fixpoint trimStart (s : jsstring) : jsstring :=
  match s with
  | c :: t => if isWhiteSpace c then trimStart t else s
  | [] => []
  end.

Definition trimEnd (s : jsstring) : jsstring := reverse (trimStart (reverse s)).

Definition trim (s : jsstring) : jsstring := trimEnd (trimStart s).

Definition isDigit (c : N) : bool := (0x30 <=? c)%N && (c <=? 0x39)%N.

(** The longest prefix of decimal digits, accumulated left to right. *)
Fixpoint digits_value (acc : Z) (seen : bool) (s : jsstring) : option Z :=
  match s with
  | c :: t =>
      if isDigit c then digits_value (10 * acc + (Z.of_N c - 0x30)) true t
      else if seen then Some acc else None
  | [] => if seen then Some acc else None
  end.

(** [parseInt(s, 10)]: leading white space is skipped, one sign is accepted,
    then the longest digit prefix is read; [None] is [NaN].  The result is a
    mathematical integer (a double represents it exactly below 2^53). *)
Definition parseInt10 (s : jsstring) : option Z :=
  match trimStart s with
  | c :: t =>
      if bool_decide (c = 0x2D%N) then Z.opp <$> digits_value 0 false t
      else if bool_decide (c = 0x2B%N) then digits_value 0 false t
      else digits_value 0 false (c :: t)
  | [] => None
  end.

Definition isHighSurrogate (c : N) : bool := (0xD800 <=? c)%N && (c <=? 0xDBFF)%N.
Definition isLowSurrogate (c : N) : bool := (0xDC00 <=? c)%N && (c <=? 0xDFFF)%N.

(** The code points of a string as the driver writes it to BSON (UTF-8): a
    surrogate pair is one code point, an unpaired surrogate is replaced by
    U+FFFD. *)
Fixpoint code_points (s : jsstring) : list N :=
  match s with
  | [] => []
  | c :: t =>
      match t with
      | lo :: t' =>
          if isHighSurrogate c && isLowSurrogate lo
          then (0x10000 + (c - 0xD800) * 0x400 + (lo - 0xDC00))%N :: code_points t'
          else (if isHighSurrogate c || isLowSurrogate c then 0xFFFD%N else c)
                 :: code_points t
      | [] => [if isHighSurrogate c || isLowSurrogate c then 0xFFFD%N else c]
      end
  end.

(** ** JavaScript values *)

(** The values the handlers see: what [JSON.parse] yields, plus [Date]
    (milliseconds since the epoch) and [ObjectId] (its 24-digit hexadecimal
    rendering).  [undefined] is [None] in an [option jsval].  A number keeps
    its integer value; the handlers only test numbers for truthiness. *)
Definition ObjectId := jsstring.

Inductive jsval :=
  | JNull
  | JBool (b : bool)
  | JNum (z : Z)
  | JStr (s : jsstring)
  | JArr (l : list jsval)
  | JObj (o : gmap string jsval)
  | JDate (ms : Z)
  | JOid (oid : ObjectId).

(** A document is a JavaScript object: a finite map from field names to
    values. *)
Abbreviation Document := (gmap string jsval).

(** [!v] is [negb (truthy v)]. *)
Definition truthy (v : jsval) : bool :=
  match v with
  | JNull => false
  | JBool b => b
  | JNum z => negb (z =? 0)
  | JStr s => negb (bool_decide (s = []))
  | _ => true
  end.

Definition truthy_opt (v : option jsval) : bool :=
  match v with Some v => truthy v | None => false end.

(** [v.k] for a value [v] that is neither [null] nor [undefined].  The keys
    read by the handlers are own properties of objects only. *)
Definition prop (v : jsval) (k : string) : option jsval :=
  match v with JObj o => o !! k | _ => None end.

(** [typeof v === "string"], with the string. *)
Definition as_string (v : option jsval) : option jsstring :=
  match v with Some (JStr s) => Some s | _ => None end.

(** ** The storage layer: JSON-schema validation *)

Inductive BsonType :=
  | TNull | TBool | TNumber | TString | TArray | TObject | TDate | TObjectId.

#[global] Instance BsonType_eq_dec : EqDecision BsonType.
Proof. solve_decision. Defined.

Definition bsonType_of (v : jsval) : BsonType :=
  match v with
  | JNull => TNull
  | JBool _ => TBool
  | JNum _ => TNumber
  | JStr _ => TString
  | JArr _ => TArray
  | JObj _ => TObject
  | JDate _ => TDate
  | JOid _ => TObjectId
  end.

(** The keywords of [$jsonSchema] that the validator of the sources uses. *)
Record PropertySchema := {
  bsonType : option BsonType;
  minLength : option nat;
  maxLength : option nat;
  enum : option (list jsstring);
}.

Record JsonSchema := {
  required : list string;
  additionalProperties : bool;
  properties : list (string * PropertySchema);
}.

(** The length that [minLength] and [maxLength] constrain is the number of
    characters (code points) of the stored string: JSON Schema defines the
    length of a string so, and the server counts the code points of the
    UTF-8 form.  (The [length] of a JavaScript string counts UTF-16 code
    units instead.)  Both keywords accept every value that is not a
    string. *)
Definition schema_length (s : jsstring) : nat := length (code_points s).

Definition property_ok (ps : PropertySchema) (v : jsval) : bool :=
  match bsonType ps with
  | Some t => bool_decide (bsonType_of v = t)
  | None => true
  end
  && match minLength ps, v with
     | Some n, JStr s => (n <=? schema_length s)%nat
     | _, _ => true
     end
  && match maxLength ps, v with
     | Some n, JStr s => (schema_length s <=? n)%nat
     | _, _ => true
     end
  && match enum ps with
     | Some vs => match v with JStr s => bool_decide (s ∈ vs) | _ => false end
     | None => true
     end.

Definition schema_ok (sch : JsonSchema) (d : Document) : bool :=
  forallb (λ k, bool_decide (is_Some (d !! k))) (required sch)
  && (additionalProperties sch
      || forallb (λ kv, bool_decide (kv.1 ∈ (properties sch).*1)) (map_to_list d))
  && forallb (λ kp, match d !! kp.1 with
                    | Some v => property_ok kp.2 v
                    | None => true
                    end) (properties sch).

(** ** The database *)

Record Collection := {
  validator : option JsonSchema;
  docs : list Document;
}.

Definition validator_ok (c : Collection) (d : Document) : bool :=
  match validator c with Some sch => schema_ok sch d | None => true end.

Inductive DbCall :=
  | ListCollections (name : string)
  | CreateCollection (name : string)
  | InsertOne (name : string)
  | CountDocuments (name : string)
  | Find (name : string)
  | FindOneAndUpdate (name : string).

(** The state a handler runs in: the collections of the database that
    [getDb] hands out, and the driver calls issued so far. *)
Record World := {
  db : gmap string Collection;
  calls : list DbCall;
}.

Definition issue (c : DbCall) (w : World) : World :=
  {| db := db w; calls := calls w ++ [c] |}.

Definition store (name : string) (c : Collection) (w : World) : World :=
  {| db := <[name := c]> (db w); calls := calls w |}.

(** ** Exceptions and the handler monad *)

Inductive exn :=
  | InvalidInputError (message : string)
  | SyntaxError
  | TypeError
  | BSONError
  | MongoServerError (code : Z).

(** Modelled from the spec: the module [lib/errors/inputExceptions] is not
    among the sources.  [InvalidInputError] is taken to extend
    [InputException] (the spec calls the outcome of a failed validation an
    input-validation error); no other exception raised here does. *)
Definition instanceof_InputException (e : exn) : bool :=
  match e with InvalidInputError _ => true | _ => false end.

Definition M (A : Type) : Type := World → (exn + A) * World.

Definition ret {A} (a : A) : M A := λ w, (inr a, w).

Definition throw {A} (e : exn) : M A := λ w, (inl e, w).

Definition bind {A B} (m : M A) (k : A → M B) : M B :=
  λ w, match m w with
       | (inr a, w') => k a w'
       | (inl e, w') => (inl e, w')
       end.

Definition try_catch {A} (m : M A) (h : exn → M A) : M A :=
  λ w, match m w with
       | (inr a, w') => (inr a, w')
       | (inl e, w') => h e w'
       end.

Declare Scope handler_scope.
Delimit Scope handler_scope with handler.
Notation "'let!' x ':=' m 'in' k" := (bind m (λ x, k))
  (at level 10, x name, m at level 100, k at level 200) : handler_scope.
Notation "'do!' m 'in' k" := (bind m (λ _, k))
  (at level 10, m at level 100, k at level 200) : handler_scope.
#[local] Open Scope handler_scope.

(** [if (c) throw e;] *)
Definition throw_if (c : bool) (e : exn) : M unit :=
  if c then throw e else ret ().

(** ** The driver *)

(** [db.listCollections({ name }, { nameOnly: true }).toArray()] *)
Definition listCollections (name : string) : M (list string) :=
  λ w, (inr (if bool_decide (is_Some (db w !! name)) then [name] else []),
        issue (ListCollections name) w).

(** [db.createCollection(name, { validator: { $jsonSchema } })]; the server
    refuses a name in use (NamespaceExists, code 48). *)
Definition createCollection (name : string) (sch : JsonSchema) : M unit :=
  λ w, let w' := issue (CreateCollection name) w in
       match db w !! name with
       | Some _ => (inl (MongoServerError 48), w')
       | None => (inr (), store name {| validator := Some sch; docs := [] |} w')
       end.

Definition has_id (oid : ObjectId) (d : Document) : bool :=
  match d !! "_id" with
  | Some (JOid o) => bool_decide (o = oid)
  | _ => false
  end.

(** [collection.insertOne(doc)] for a [doc] without [_id]: the driver assigns
    the ObjectId [fresh]; the server creates a missing collection without
    validator, refuses a document that fails the collection's validator
    (DocumentValidationFailure, code 121) or whose [_id] is taken
    (DuplicateKey, code 11000), and appends the document otherwise.  The
    result is [insertedId]. *)
Definition insertOne (fresh : ObjectId) (name : string) (doc : Document)
  : M ObjectId :=
  λ w, let w' := issue (InsertOne name) w in
       let c := default {| validator := None; docs := [] |} (db w !! name) in
       let doc' := <["_id" := JOid fresh]> doc in
       if negb (validator_ok c doc') then (inl (MongoServerError 121), w')
       else if existsb (has_id fresh) (docs c) then (inl (MongoServerError 11000), w')
       else (inr fresh,
             store name {| validator := validator c; docs := docs c ++ [doc'] |} w').

(** A query of the handlers: [{}] or [{ status }]. *)
Definition matches (query : option jsstring) (d : Document) : bool :=
  match query with
  | None => true
  | Some s => match d !! "status" with
              | Some (JStr s') => bool_decide (s' = s)
              | _ => false
              end
  end.

Definition docs_of (name : string) (w : World) : list Document :=
  match db w !! name with Some c => docs c | None => [] end.

(** [collection.countDocuments(query)] *)
Definition countDocuments (name : string) (query : option jsstring) : M Z :=
  λ w, (inr (Z.of_nat (length (filter (λ d, matches query d) (docs_of name w)))),
        issue (CountDocuments name) w).

(** *** Sorting *)

(** The comparison order of BSON values, as a key compared
    lexicographically: the rank of the type first (null and missing, numbers,
    strings, objects, arrays, ObjectId, booleans, dates), then the value.
    Strings compare by code point (the byte order of their UTF-8 form); the
    contents of objects and arrays do not refine the order in this model. *)
Definition sort_key (v : option jsval) : list Z :=
  match v with
  | None | Some JNull => [2]
  | Some (JNum z) => [3; z]
  | Some (JStr s) => 4 :: (Z.of_N <$> code_points s)
  | Some (JObj _) => [5]
  | Some (JArr _) => [6]
  | Some (JOid o) => 8 :: (Z.of_N <$> o)
  | Some (JBool b) => [9; if b then 1 else 0]
  | Some (JDate ms) => [10; ms]
  end.

Fixpoint lex_leb (a b : list Z) : bool :=
  match a, b with
  | [], _ => true
  | _ :: _, [] => false
  | x :: a', y :: b' => (x <? y) || ((x =? y) && lex_leb a' b')
  end.

(** [d1] may precede [d2] under [sort({ createdDate: -1 })]. *)
Definition createdDate_desc (d1 d2 : Document) : Prop :=
  lex_leb (sort_key (d2 !! "createdDate")) (sort_key (d1 !! "createdDate")).

#[global] Instance createdDate_desc_dec d1 d2 : Decision (createdDate_desc d1 d2).
Proof. unfold createdDate_desc. apply _. Defined.

(** [cursor.limit(n)]: zero means no limit, a negative [n] limits to [-n]. *)
Definition cursor_limit {A} (n : Z) (l : list A) : list A :=
  if n =? 0 then l else take (Z.to_nat (Z.abs n)) l.

(** [collection.find(query).sort({ createdDate: -1 }).skip(skip).limit(limit)
    .toArray()]; the driver refuses a negative [skip]. *)
Definition find_sorted_page (name : string) (query : option jsstring)
    (skip limit : Z) : M (list Document) :=
  λ w, let w' := issue (Find name) w in
       if skip <? 0 then (inl (MongoServerError 2), w')
       else (inr (cursor_limit limit
                    (drop (Z.to_nat skip)
                       (merge_sort createdDate_desc
                          (filter (λ d, matches query d) (docs_of name w))))),
             w').

(** *** What the deployment fixes *)

(** The result of [findOneAndUpdate] depends on the driver: a [ModifyResult]
    object [{ value, ok, lastErrorObject }], or the document itself (or
    [null]). *)
Inductive ResultShape := ModifyResultShape | DocumentShape.

(** What the sources import without defining: the page size of
    [lib/constants/config], the string form of ObjectIds of the [bson]
    library ([ObjectId.isValid(s)] holds when [new ObjectId(s)] succeeds,
    here with the identifier built), and the result shape of the installed
    driver. *)
Class Platform := {
  PAGINATION_PAGE_SIZE : Z;
  ObjectId_parse : jsstring → option ObjectId;
  findOneAndUpdate_shape : ResultShape;
}.

Definition ObjectId_isValid `{Platform} (s : jsstring) : bool :=
  bool_decide (is_Some (ObjectId_parse s)).

Definition apply_set (fields : list (string * jsval)) (d : Document) : Document :=
  foldl (λ acc kv, <[kv.1 := kv.2]> acc) d fields.

Definition shape_result `{Platform} (found : option Document) : jsval :=
  let value := match found with Some d => JObj d | None => JNull end in
  match findOneAndUpdate_shape with
  | DocumentShape => value
  | ModifyResultShape =>
      JObj (<["value" := value]>
           (<["ok" := JNum 1]>
           (<["lastErrorObject" :=
                JObj (<["n" := JNum (match found with Some _ => 1 | None => 0 end)]>
                     (<["updatedExisting" := JBool (bool_decide (is_Some found))]> ∅))]>
            ∅)))
  end.

(** [collection.findOneAndUpdate({ _id }, { $set }, { returnDocument:
    "after" })]: the first document with that [_id] gets the fields set,
    unless the outcome fails the collection's validator (code 121); without
    a match nothing is written (there is no upsert). *)
Definition findOneAndUpdate `{Platform} (name : string) (oid : ObjectId)
    (fields : list (string * jsval)) : M jsval :=
  λ w, let w' := issue (FindOneAndUpdate name) w in
       match db w !! name with
       | None => (inr (shape_result None), w')
       | Some c =>
           match list_find (λ d, has_id oid d) (docs c) with
           | None => (inr (shape_result None), w')
           | Some (i, d) =>
               let d' := apply_set fields d in
               if validator_ok c d'
               then (inr (shape_result (Some d')),
                     store name {| validator := validator c;
                                   docs := <[i := d']> (docs c) |} w')
               else (inl (MongoServerError 121), w')
           end
       end.

(** ** server/db/initRequestsCollection *)

Definition requestsSchema : JsonSchema :=
  {| required := ["requestorName"; "itemRequested"; "createdDate"; "status"];
     additionalProperties := false;
     properties :=
       [ ("_id", {| bsonType := None; minLength := None; maxLength := None;
                    enum := None |});
         ("requestorName",
           {| bsonType := Some TString; minLength := Some 3%nat;
              maxLength := Some 30%nat; enum := None |});
         ("itemRequested",
           {| bsonType := Some TString; minLength := Some 2%nat;
              maxLength := Some 100%nat; enum := None |});
         ("createdDate",
           {| bsonType := Some TDate; minLength := None; maxLength := None;
              enum := None |});
         ("lastEditedDate",
           {| bsonType := Some TDate; minLength := None; maxLength := None;
              enum := None |});
         ("status",
           {| bsonType := Some TString; minLength := None; maxLength := None;
              enum := Some [js "pending"; js "completed"; js "approved";
                            js "rejected"] |}) ] |}.

Definition ensureRequestsCollection : M unit :=
  let! collections := listCollections "requests" in
  if (0 <? length collections)%nat then ret ()
  else createCollection "requests" requestsSchema.

(** ** The requests route *)

(** The members of [ResponseType] that the route builds responses from. *)
Inductive ResponseType := INVALID_INPUT | UNKNOWN_ERROR.

(** The object literal that [GET] and [PATCH] build from a document; a field
    that is [undefined] is left out by [JSON.stringify].  [item_id] is the
    value of [_id], which the response shows through [toString()]. *)
Record Item := {
  item_id : jsval;
  item_requestorName : option jsval;
  item_itemRequested : option jsval;
  item_createdDate : option jsval;
  item_lastEditedDate : option jsval;
  item_status : option jsval;
}.

Record Pagination := {
  page : Z;
  pageSize : Z;
  totalPages : Z;
  totalCount : Z;
}.

Inductive Body :=
  | BodyDocument (d : Document)
  | BodyList (items : list Item) (pagination : Pagination)
  | BodyItem (item : Item).

(** [ServerResponse t] is [new ServerResponseBuilder(t).build()];
    [JsonResponse status body] is [new Response(JSON.stringify(body),
    { status })]. *)
Inductive Response :=
  | ServerResponse (t : ResponseType)
  | JsonResponse (status : Z) (body : Body).

(** What the handlers read of a request: the parameters of the query string
    in order, and the parsed body ([None] when [request.json()] rejects). *)
Record Request := {
  searchParams : list (jsstring * jsstring);
  json : option jsval;
}.

(** What a handler reads from its surroundings: the clock of [new Date()]
    and the ObjectId the driver generates for an insert. *)
Record Env := {
  date_now : Z;
  generated_id : ObjectId;
}.

(** [await request.json()] *)
Definition request_json (request : Request) : M jsval :=
  match json request with Some v => ret v | None => throw SyntaxError end.

(** [url.searchParams.get(name)]; [None] is [null]. *)
Definition searchParams_get (request : Request) (name : jsstring)
  : option jsstring :=
  snd <$> (snd <$> list_find (λ kv, kv.1 = name) (searchParams request)).

(** [s || dflt] for a string or [null]. *)
Definition or_string (s : option jsstring) (dflt : jsstring) : jsstring :=
  match s with
  | Some (c :: t) => c :: t
  | _ => dflt
  end.

Definition is_string (v : option jsval) : bool :=
  bool_decide (is_Some (as_string v)).

(** [v.length] and [v] itself for a [v] whose [typeof] is ["string"]. *)
Definition string_of (v : option jsval) : jsstring := default [] (as_string v).
Definition length_of (v : option jsval) : Z := js_length (string_of v).

(** The driver stores [undefined] as [null]. *)
Definition bson_of (v : option jsval) : jsval := default JNull v.

(** A read of a property that the code has found truthy. *)
Definition known (v : option jsval) : jsval := default JNull v.

Definition ALLOWED_STATUSES : list jsstring :=
  [js "pending"; js "completed"; js "approved"; js "rejected"].

Definition includes (l : list jsstring) (s : jsstring) : bool :=
  bool_decide (s ∈ l).

Definition validateCreateBody (body : jsval) : M unit :=
  throw_if
    (negb (truthy body)
     || negb (is_string (prop body "requestorName"))
     || (length_of (prop body "requestorName") <? 3)
     || (30 <? length_of (prop body "requestorName"))
     || negb (is_string (prop body "itemRequested"))
     || (length_of (prop body "itemRequested") <? 2)
     || (100 <? length_of (prop body "itemRequested")))
    (InvalidInputError "Invalid request body").

Definition validatePatchBody (body : jsval) : M unit :=
  do! throw_if
        (negb (truthy body)
         || negb (is_string (prop body "id"))
         || bool_decide (trim (string_of (prop body "id")) = []))
        (InvalidInputError "Invalid id") in
  throw_if
    (negb (is_string (prop body "status"))
     || negb (includes ALLOWED_STATUSES (string_of (prop body "status"))))
    (InvalidInputError "Invalid status").

(** The [catch] clause of [PUT] and [PATCH]. *)
Definition on_error (e : exn) : M Response :=
  if instanceof_InputException e then ret (ServerResponse INVALID_INPUT)
  else ret (ServerResponse UNKNOWN_ERROR).

Definition PUT (env : Env) (request : Request) : M Response :=
  try_catch
    (let! body := request_json request in
     do! validateCreateBody body in
     do! ensureRequestsCollection in
     let now := JDate (date_now env) in
     let doc : Document :=
       <["requestorName" := bson_of (prop body "requestorName")]>
       (<["itemRequested" := bson_of (prop body "itemRequested")]>
       (<["createdDate" := now]>
       (<["lastEditedDate" := now]>
       (<["status" := JStr (js "pending")]> ∅)))) in
     let! insertedId := insertOne (generated_id env) "requests" doc in
     ret (JsonResponse 201 (BodyDocument (<["_id" := JOid insertedId]> doc))))
    on_error.

(** [{ id: d._id.toString(), requestorName: d.requestorName, ... }];
    [toString] of [undefined] or [null] throws a [TypeError] ([None]). *)
Definition to_item (d : jsval) : option Item :=
  match prop d "_id" with
  | None | Some JNull => None
  | Some id =>
      Some {| item_id := id;
              item_requestorName := prop d "requestorName";
              item_itemRequested := prop d "itemRequested";
              item_createdDate := prop d "createdDate";
              item_lastEditedDate := prop d "lastEditedDate";
              item_status := prop d "status" |}
  end.

Definition or_TypeError {A} (o : option A) : M A :=
  match o with Some a => ret a | None => throw TypeError end.

(** [Math.max(1, Math.ceil(totalCount / pageSize))]: the quotient is the
    exact one. *)
Definition total_pages (totalCount pageSize : Z) : Z :=
  Z.max 1 (Qceiling (inject_Z totalCount / inject_Z pageSize)).

(** The two queries under [Promise.all] are issued in the order of the
    array. *)
Definition GET `{Platform} (request : Request) : M Response :=
  let status := searchParams_get request (js "status") in
  let page := parseInt10 (or_string (searchParams_get request (js "page")) (js "1")) in
  match page with
  | None => ret (ServerResponse INVALID_INPUT)
  | Some page =>
      if page <? 1 then ret (ServerResponse INVALID_INPUT)
      else if match status with
              | Some (c :: t) => negb (includes ALLOWED_STATUSES (c :: t))
              | _ => false
              end
      then ret (ServerResponse INVALID_INPUT)
      else
        try_catch
          (do! ensureRequestsCollection in
           let query := match status with Some (c :: t) => Some (c :: t) | _ => None end in
           let pageSize := PAGINATION_PAGE_SIZE in
           let skip := (page - 1) * pageSize in
           let! totalCount := countDocuments "requests" query in
           let! docs := find_sorted_page "requests" query skip pageSize in
           let totalPages := total_pages totalCount pageSize in
           let! items := or_TypeError (mapM (λ d, to_item (JObj d)) docs) in
           ret (JsonResponse 200
                  (BodyList items
                     {| page := page; pageSize := pageSize;
                        totalPages := totalPages; totalCount := totalCount |})))
          (λ _, ret (ServerResponse UNKNOWN_ERROR))
  end.

(** [new ObjectId(s)] *)
Definition new_ObjectId `{Platform} (s : jsstring) : M ObjectId :=
  match ObjectId_parse s with Some oid => ret oid | None => throw BSONError end.

(** The [PATCH] handler of the revision that reads [result.value]. *)
Module Untyped.

Definition PATCH `{Platform} (env : Env) (request : Request) : M Response :=
  try_catch
    (let! body := request_json request in
     do! validatePatchBody body in
     do! throw_if (negb (ObjectId_isValid (string_of (prop body "id"))))
           (InvalidInputError "Invalid id") in
     do! ensureRequestsCollection in
     let now := JDate (date_now env) in
     let! oid := new_ObjectId (string_of (prop body "id")) in
     let! result :=
       findOneAndUpdate "requests" oid
         [("status", bson_of (prop body "status")); ("lastEditedDate", now)] in
     do! throw_if (negb (truthy result) || negb (truthy_opt (prop result "value")))
           (InvalidInputError "Request not found") in
     let d := known (prop result "value") in
     let! updated := or_TypeError (to_item d) in
     ret (JsonResponse 200 (BodyItem updated)))
    on_error.

End Untyped.

(** The [PATCH] handler of the typed revision, which reads [result]. *)
Module Typed.

Definition PATCH `{Platform} (env : Env) (request : Request) : M Response :=
  try_catch
    (let! body := request_json request in
     do! validatePatchBody body in
     do! throw_if (negb (ObjectId_isValid (string_of (prop body "id"))))
           (InvalidInputError "Invalid id") in
     do! ensureRequestsCollection in
     let now := JDate (date_now env) in
     let! oid := new_ObjectId (string_of (prop body "id")) in
     let! result :=
       findOneAndUpdate "requests" oid
         [("status", bson_of (prop body "status")); ("lastEditedDate", now)] in
     do! throw_if (negb (truthy result)) (InvalidInputError "Request not found") in
     let d := result in
     let! updated := or_TypeError (to_item d) in
     ret (JsonResponse 200 (BodyItem updated)))
    on_error.

End Typed.

Inductive Revision := UntypedRevision | TypedRevision.

Definition PATCH_of `{Platform} (rev : Revision) : Env → Request → M Response :=
  match rev with
  | UntypedRevision => Untyped.PATCH
  | TypedRevision => Typed.PATCH
  end.

(** The handlers that the route exports. *)
Inductive Handler := HPUT | HGET | HPATCH (rev : Revision).

Definition handle `{Platform} (h : Handler) (env : Env) (request : Request)
  : M Response :=
  match h with
  | HPUT => PUT env request
  | HGET => GET request
  | HPATCH rev => PATCH_of rev env request
  end.

(** ** A concrete deployment, for evaluation *)

Definition isHexDigit (c : N) : bool :=
  isDigit c || ((0x41 <=? c)%N && (c <=? 0x46)%N) || ((0x61 <=? c)%N && (c <=? 0x66)%N).

Definition toLowerHex (c : N) : N :=
  if (0x41 <=? c)%N && (c <=? 0x46)%N then (c + 0x20)%N else c.

(** The [bson] library from version 5 on: an ObjectId string is 24
    hexadecimal digits, and [toString()] renders them in lower case. *)
Definition hex24 (s : jsstring) : option ObjectId :=
  if (length s =? 24)%nat && forallb isHexDigit s then Some (toLowerHex <$> s)
  else None.

Definition platform (shape : ResultShape) (size : Z) : Platform :=
  {| PAGINATION_PAGE_SIZE := size;
     ObjectId_parse := hex24;
     findOneAndUpdate_shape := shape |}.

Definition empty_world : World := {| db := ∅; calls := [] |}.

Definition json_request (body : jsval) : Request :=
  {| searchParams := []; json := Some body |}.

Definition list_request (params : list (string * string)) : Request :=
  {| searchParams := (λ kv, (js kv.1, js kv.2)) <$> params; json := None |}.

Definition sample_env : Env :=
  {| date_now := 1000; generated_id := js "65f0a1b2c3d4e5f60718293a" |}.

(** A create body that also supplies a status and timestamps. *)
Definition sample_create : Request :=
  json_request
    (JObj (<["requestorName" := JStr (js "Alice")]>
          (<["itemRequested" := JStr (js "pen")]>
          (<["status" := JStr (js "approved")]>
          (<["createdDate" := JNum 5]>
          (<["lastEditedDate" := JNum 7]> ∅)))))).

(** A create body whose item is the single character U+1F600. *)
Definition astral_create : Request :=
  json_request
    (JObj (<["requestorName" := JStr (js "Alice")]>
          (<["itemRequested" := JStr [0xD83D; 0xDE00]%N]> ∅))).

(** A database whose requests collection was not created by
    [ensureRequestsCollection]. *)
Definition unvalidated_world : World :=
  {| db := {[ "requests" := {| validator := None; docs := [] |} ]}; calls := [] |}.

(** ** Vocabulary of the statements *)

(** Closes an equation between closed terms by evaluation. *)
Ltac by_evaluation :=
  lazymatch goal with
  | |- ?l = ?r => vm_cast_no_check (@eq_refl _ r)
  end.

(** What [validateCreateBody] accepts. *)
Definition create_body_ok (body : jsval) : Prop :=
  ∃ name item,
    prop body "requestorName" = Some (JStr name) ∧
    prop body "itemRequested" = Some (JStr item) ∧
    (3 ≤ length name ≤ 30)%nat ∧ (2 ≤ length item ≤ 100)%nat.

#[global] Instance DbCall_eq_dec : EqDecision DbCall.
Proof. solve_decision. Defined.

(** How often a call list creates the requests collection. *)
Definition creations (cs : list DbCall) : nat :=
  length (filter (λ c, c = CreateCollection "requests") cs).

(** The world that [ensureRequestsCollection] leaves. *)
Definition ensured (w : World) : World :=
  if bool_decide (is_Some (db w !! "requests"))
  then issue (ListCollections "requests") w
  else store "requests" {| validator := Some requestsSchema; docs := [] |}
         (issue (CreateCollection "requests")
            (issue (ListCollections "requests") w)).

Fixpoint repeat_ensure (n : nat) : M unit :=
  match n with
  | O => ret ()
  | S n => do! ensureRequestsCollection in repeat_ensure n
  end.

(** The document that [PUT] hands to the collection, with the [_id] the
    driver assigns. *)
Definition created_doc (env : Env) (name item : jsstring) : Document :=
  <["_id" := JOid (generated_id env)]>
  (<["requestorName" := JStr name]>
  (<["itemRequested" := JStr item]>
  (<["createdDate" := JDate (date_now env)]>
  (<["lastEditedDate" := JDate (date_now env)]>
  (<["status" := JStr (js "pending")]> ∅))))).

(** The collection that an insert into "requests" meets after
    [ensureRequestsCollection]. *)
Definition requests_of (w : World) : Collection :=
  default {| validator := None; docs := [] |} (db w !! "requests").

Definition insert_refused (c : Collection) (env : Env) (d : Document) : bool :=
  negb (validator_ok c d) || existsb (has_id (generated_id env)) (docs c).

(** What both revisions read from a body that passes their checks: the
    ObjectId of the record and the requested status. *)
Definition patch_request `{Platform} (body : jsval) : option (ObjectId * jsstring) :=
  match prop body "id", prop body "status" with
  | Some (JStr sid), Some (JStr st) =>
      if bool_decide (trim sid = []) then None
      else if includes ALLOWED_STATUSES st
           then (λ oid, (oid, st)) <$> ObjectId_parse sid
           else None
  | _, _ => None
  end.

(** The update document of [PATCH]. *)
Definition patch_fields (env : Env) (st : jsstring) : list (string * jsval) :=
  [("status", JStr st); ("lastEditedDate", JDate (date_now env))].

(** What each revision answers to the result of [findOneAndUpdate]. *)
Definition patch_response (rev : Revision) (result : jsval) : Response :=
  match rev with
  | UntypedRevision =>
      if negb (truthy result) || negb (truthy_opt (prop result "value"))
      then ServerResponse INVALID_INPUT
      else match to_item (known (prop result "value")) with
           | Some item => JsonResponse 200 (BodyItem item)
           | None => ServerResponse UNKNOWN_ERROR
           end
  | TypedRevision =>
      if negb (truthy result) then ServerResponse INVALID_INPUT
      else match to_item result with
           | Some item => JsonResponse 200 (BodyItem item)
           | None => ServerResponse UNKNOWN_ERROR
           end
  end.

(** No record is deleted between two worlds: every position of every
    collection still holds a document, with the same [_id]. *)
Definition keeps_records (w w' : World) : Prop :=
  ∀ n i d, docs_of n w !! i = Some d →
           ∃ d', docs_of n w' !! i = Some d' ∧ d' !! "_id" = d !! "_id".

(** A status update without [id]. *)
Definition patch_without_id : Request :=
  json_request (JObj (<["status" := JStr (js "approved")]> ∅)).

(** The world after [sample_create], and a status update of its record,
    with the identifier in upper case. *)
Definition sample_world : World := (PUT sample_env sample_create empty_world).2.

Definition sample_patch : Request :=
  json_request
    (JObj (<["id" := JStr (js "65F0A1B2C3D4E5F60718293A")]>
          (<["status" := JStr (js "approved")]> ∅))).

Definition later_env : Env :=
  {| date_now := 2000; generated_id := js "65f0a1b2c3d4e5f60718293b" |}.

(** The page number and the status filter that [GET] reads from the query
    string; an absent or empty [status] is no filter. *)
Definition requested_page (request : Request) : option Z :=
  parseInt10 (or_string (searchParams_get request (js "page")) (js "1")).

Definition requested_status (request : Request) : option jsstring :=
  match searchParams_get request (js "status") with
  | Some (c :: t) => Some (c :: t)
  | _ => None
  end.

(** The records that match the filter of a list request, and the same in
    the order of the sort. *)
Definition matching (request : Request) (w : World) : list Document :=
  filter (λ d, matches (requested_status request) d) (docs_of "requests" w).

Definition sorted_matching (request : Request) (w : World) : list Document :=
  merge_sort createdDate_desc (matching request w).

(** The window of a page. *)
Definition page_window `{Platform} (p : Z) (l : list Document) : list Document :=
  take (Z.to_nat PAGINATION_PAGE_SIZE)
    (drop (Z.to_nat ((p - 1) * PAGINATION_PAGE_SIZE)) l).

(** The record of [sample_world] after [sample_patch] at [later_env], and
    the item that shows it. *)
Definition sample_updated_doc : Document :=
  <["_id" := JOid (js "65f0a1b2c3d4e5f60718293a")]>
  (<["requestorName" := JStr (js "Alice")]>
  (<["itemRequested" := JStr (js "pen")]>
  (<["createdDate" := JDate 1000]>
  (<["lastEditedDate" := JDate 2000]>
  (<["status" := JStr (js "approved")]> ∅))))).

Definition sample_updated_item : Item :=
  {| item_id := JOid (js "65f0a1b2c3d4e5f60718293a");
     item_requestorName := Some (JStr (js "Alice"));
     item_itemRequested := Some (JStr (js "pen"));
     item_createdDate := Some (JDate 1000);
     item_lastEditedDate := Some (JDate 2000);
     item_status := Some (JStr (js "approved")) |}.

(** The effect of a status update between two worlds: the body named a
    record of the requests collection by its ObjectId and an allowed status;
    the record has the status and the edit date set and its other fields
    kept; every other record and collection is as before. *)
Definition status_updated `{Platform} (env : Env) (request : Request)
    (w w' : World) : Prop :=
  ∃ payload sid oid st i d d',
    json request = Some payload
    ∧ prop payload "id" = Some (JStr sid) ∧ ObjectId_parse sid = Some oid
    ∧ prop payload "status" = Some (JStr st) ∧ st ∈ ALLOWED_STATUSES
    ∧ docs_of "requests" w !! i = Some d ∧ d !! "_id" = Some (JOid oid)
    ∧ docs_of "requests" w' = <[i := d']> (docs_of "requests" w)
    ∧ (∀ n, n ≠ "requests" → docs_of n w' = docs_of n w)
    ∧ d' !! "status" = Some (JStr st)
    ∧ d' !! "lastEditedDate" = Some (JDate (date_now env))
    ∧ d' !! "requestorName" = d !! "requestorName"
    ∧ d' !! "itemRequested" = d !! "itemRequested"
    ∧ d' !! "createdDate" = d !! "createdDate"
    ∧ d' !! "_id" = d !! "_id".

(** Three records, created at 1000, 3000 and 2000, and the items that list
    them. *)
Definition create_request (name item : string) : Request :=
  json_request
    (JObj (<["requestorName" := JStr (js name)]>
          (<["itemRequested" := JStr (js item)]> ∅))).

Definition env_at (ms : Z) (id : string) : Env :=
  {| date_now := ms; generated_id := js id |}.

Definition three_world : World :=
  let w1 := (PUT (env_at 1000 "65f0a1b2c3d4e5f607182931")
               (create_request "Alice" "pen") empty_world).2 in
  let w2 := (PUT (env_at 3000 "65f0a1b2c3d4e5f607182932")
               (create_request "Bob" "ink") w1).2 in
  (PUT (env_at 2000 "65f0a1b2c3d4e5f607182933")
     (create_request "Carol" "cup") w2).2.

Definition listed (id name item : string) (ms : Z) : Item :=
  {| item_id := JOid (js id);
     item_requestorName := Some (JStr (js name));
     item_itemRequested := Some (JStr (js item));
     item_createdDate := Some (JDate ms);
     item_lastEditedDate := Some (JDate ms);
     item_status := Some (JStr (js "pending")) |}.

Definition first_page : list Item :=
  [listed "65f0a1b2c3d4e5f607182932" "Bob" "ink" 3000;
   listed "65f0a1b2c3d4e5f607182933" "Carol" "cup" 2000].

Definition first_page_request : Request :=
  list_request [("page", "1"); ("status", "pending")].

(** What [parseInt(_, 10)] needs in order to read a number: a decimal
    digit after the leading white space and one optional sign. *)
Definition after_sign (s : jsstring) : jsstring :=
  match s with
  | c :: t => if bool_decide (c = 0x2D%N) || bool_decide (c = 0x2B%N) then t else s
  | [] => []
  end.

Definition digit_led (s : jsstring) : bool :=
  match s with c :: _ => isDigit c | [] => false end.

(** A requests collection that [ensureRequestsCollection] has created, with
    records that satisfy its schema; or none yet. *)
Definition guarded (w : World) : Prop :=
  match db w !! "requests" with
  | Some c => validator c = Some requestsSchema
              ∧ Forall (λ d, schema_ok requestsSchema d = true) (docs c)
  | None => True
  end.

(** Calls of the route, one after the other. *)
Definition Call : Type := Handler * Env * Request.

Definition run_calls `{Platform} (cs : list Call) (w : World) : World :=
  foldl (λ w c, (handle c.1.1 c.1.2 c.2 w).2) w cs.

(** The requests collection after [findOneAndUpdate]. *)
Definition patched (c : Collection) (oid : ObjectId)
    (fields : list (string * jsval)) : Collection :=
  match list_find (λ d, has_id oid d) (docs c) with
  | Some (i, d) =>
      if validator_ok c (apply_set fields d)
      then {| validator := validator c;
              docs := <[i := apply_set fields d]> (docs c) |}
      else c
  | None => c
  end.



(** A status update of the record that [sample_create] made, to the status
    "completed". *)
Definition second_patch : Request :=
  json_request
    (JObj (<["id" := JStr (js "65f0a1b2c3d4e5f60718293a")]>
          (<["status" := JStr (js "completed")]> ∅))).

(** ** The first revision of the list handler *)

(** The [GET] handler of the revision of the route file that has no
    [PATCH]: the same as [GET] but for the check of the [status]
    parameter, which it lacks. *)
Module Legacy.

Definition GET `{Platform} (request : Request) : M Response :=
  let status := searchParams_get request (js "status") in
  let page := parseInt10 (or_string (searchParams_get request (js "page")) (js "1")) in
  match page with
  | None => ret (ServerResponse INVALID_INPUT)
  | Some page =>
      if page <? 1 then ret (ServerResponse INVALID_INPUT)
      else
        try_catch
          (do! ensureRequestsCollection in
           let query := match status with Some (c :: t) => Some (c :: t) | _ => None end in
           let pageSize := PAGINATION_PAGE_SIZE in
           let skip := (page - 1) * pageSize in
           let! totalCount := countDocuments "requests" query in
           let! docs := find_sorted_page "requests" query skip pageSize in
           let totalPages := total_pages totalCount pageSize in
           let! items := or_TypeError (mapM (λ d, to_item (JObj d)) docs) in
           ret (JsonResponse 200
                  (BodyList items
                     {| page := page; pageSize := pageSize;
                        totalPages := totalPages; totalCount := totalCount |})))
          (λ _, ret (ServerResponse UNKNOWN_ERROR))
  end.

End Legacy.

(** ** lib/mongodb *)

(** The module that hands out the database.  Its top level runs when the
    module is evaluated: it reads the environment, throws when a variable
    is missing, and keeps the promise of one connected client in the
    process-wide [global._mongoClientPromise], which outlives a
    re-evaluation of the module. *)
Module Mongodb.

(** [process.env]: a variable is a string or [undefined]. *)
Record ProcessEnv := {
  MONGODB_URI : option string;
  MONGODB_DB : option string;
}.

(** [!s] for a string or [undefined]. *)
Definition falsy (s : option string) : bool :=
  match s with
  | Some s => bool_decide (s = "")
  | None => true
  end.

Definition text (s : option string) : string := default "" s.

Record MongoClient := { client_uri : string }.

(** The promise that [client.connect()] returns: it settles to the client
    itself, or rejects. *)
Record ClientPromise := {
  client : MongoClient;
  fulfilled : bool;
}.

(** [global]: the promise, if one has been stored, and the URIs that
    [new MongoClient] has been called with. *)
Record Global := {
  _mongoClientPromise : option ClientPromise;
  constructed : list string;
}.

Inductive Failure :=
  | Error (message : string)
  | MongoParseError
  | ConnectionRejected
  | NotAClient.

(** What the module exports: [clientPromise] (the default export) and what
    [getDb] closes over. *)
Record Exports := {
  clientPromise : option ClientPromise;
  dbName : string;
}.

(** What the driver meets: the connection strings that it accepts, and
    the ones that connect. *)
Record Network := {
  well_formed : string → bool;
  reachable : string → bool;
}.

(** [new MongoClient(uri)]: the constructor throws on a connection string
    that it cannot parse. *)
Definition new_MongoClient (net : Network) (uri : string) (g : Global)
  : Failure + MongoClient * Global :=
  if well_formed net uri
  then inr ({| client_uri := uri |},
            {| _mongoClientPromise := _mongoClientPromise g;
               constructed := constructed g ++ [uri] |})
  else inl MongoParseError.

(** [client.connect()] *)
Definition connect (net : Network) (c : MongoClient) : ClientPromise :=
  {| client := c; fulfilled := reachable net (client_uri c) |}.

Definition set_promise (p : ClientPromise) (g : Global) : Global :=
  {| _mongoClientPromise := Some p; constructed := constructed g |}.

(** [if (!global._mongoClientPromise) { const client = new MongoClient(uri);
    global._mongoClientPromise = client.connect(); }] *)
Definition ensure_promise (net : Network) (uri : string) (g : Global)
  : Failure + Global :=
  match _mongoClientPromise g with
  | None =>
      match new_MongoClient net uri g with
      | inr (c, g') => inr (set_promise (connect net c) g')
      | inl e => inl e
      end
  | Some _ => inr g
  end.

(** The top level of [src/lib/mongodb.ts]. *)
Definition module_init (net : Network) (env : ProcessEnv) (g : Global)
  : Failure + Exports * Global :=
  let uri := MONGODB_URI env in
  let dbName := MONGODB_DB env in
  if falsy uri
  then inl (Error "Please define the MONGODB_URI environment variable in .env.local")
  else if falsy dbName
  then inl (Error "Please define the MONGODB_DB environment variable in .env.local")
  else
    match ensure_promise net (text uri) g with
    | inl e => inl e
    | inr g1 =>
        let clientPromise := _mongoClientPromise g1 in
        inr ({| clientPromise := clientPromise; dbName := text dbName |}, g1)
    end.

Record Db := {
  db_client : MongoClient;
  db_name : string;
}.

(** [getDb()]: [await clientPromise], then [client.db(dbName)]. *)
Definition getDb (m : Exports) : Failure + Db :=
  match clientPromise m with
  | Some p =>
      if fulfilled p then inr {| db_client := client p; db_name := dbName m |}
      else inl ConnectionRejected
  | None => inl NotAClient
  end.

(** The module evaluated once per environment of the list, as a reload
    does, on the same [global]; a failed evaluation leaves it as it is. *)
Fixpoint reloads (net : Network) (envs : list ProcessEnv) (g : Global)
  : list (Failure + Exports) * Global :=
  match envs with
  | [] => ([], g)
  | env :: envs =>
      match module_init net env g with
      | inl e => let (outs, g') := reloads net envs g in (inl e :: outs, g')
      | inr (m, g1) =>
          let (outs, g') := reloads net envs g1 in (inr m :: outs, g')
      end
  end.

Definition fresh_global : Global :=
  {| _mongoClientPromise := None; constructed := [] |}.

End Mongodb.

(** The later revisions of the module: the URI and the database name are
    read from the environment or are constants of the file, and
    [clientPromise] falls back to a new connection
    ([global._mongoClientPromise ?? (global._mongoClientPromise = new
    MongoClient(uri).connect())]). *)
Module MongodbRevised.
Import Mongodb.

Definition module_init (net : Network) (uri dbName : option string)
    (g : Global) : Failure + Exports * Global :=
  if falsy uri
  then inl (Error "Please define the MONGODB_URI environment variable in .env.local")
  else if falsy dbName
  then inl (Error "Please define the MONGODB_DB environment variable in .env.local")
  else
    match ensure_promise net (text uri) g with
    | inl e => inl e
    | inr g1 =>
        match _mongoClientPromise g1 with
        | Some p =>
            inr ({| clientPromise := Some p; dbName := text dbName |}, g1)
        | None =>
            match new_MongoClient net (text uri) g1 with
            | inr (c, g') =>
                inr ({| clientPromise := Some (connect net c);
                        dbName := text dbName |},
                     set_promise (connect net c) g')
            | inl e => inl e
            end
        end
    end.

End MongodbRevised.

(** A network, an environment and a changed environment for evaluation. *)
Definition sample_network : Mongodb.Network :=
  {| Mongodb.well_formed := λ uri, bool_decide (uri ≠ "not a uri");
     Mongodb.reachable := λ uri, bool_decide (uri = "mongodb://db.example/") |}.

Definition sample_process_env : Mongodb.ProcessEnv :=
  {| Mongodb.MONGODB_URI := Some "mongodb://db.example/";
     Mongodb.MONGODB_DB := Some "portal" |}.

Definition changed_process_env : Mongodb.ProcessEnv :=
  {| Mongodb.MONGODB_URI := Some "mongodb://other.example/";
     Mongodb.MONGODB_DB := Some "staging" |}.

(** * Properties *)
(** ** The monad *)

Lemma bind_throw {A B} (m : M A) (k : A → M B) e w w' :
  m w = (inl e, w') → bind m k w = (inl e, w').
Proof. unfold bind. by intros ->. Qed.

Lemma bind_ret {A B} (m : M A) (k : A → M B) a w w' :
  m w = (inr a, w') → bind m k w = k a w'.
Proof. unfold bind. by intros ->. Qed.

Lemma try_catch_throw {A} (m : M A) h e w w' :
  m w = (inl e, w') → try_catch m h w = h e w'.
Proof. unfold try_catch. by intros ->. Qed.

Lemma try_catch_ret {A} (m : M A) h a w w' :
  m w = (inr a, w') → try_catch m h w = (inr a, w').
Proof. unfold try_catch. by intros ->. Qed.

Lemma throw_if_true c e w : c = true → throw_if c e w = (inl e, w).
Proof. by intros ->. Qed.

Lemma throw_if_false c e w : c = false → throw_if c e w = (inr (), w).
Proof. by intros ->. Qed.

(** ** Validation of the request bodies *)

Lemma js_length_nat s : js_length s = Z.of_nat (length s).
Proof. done. Qed.

Lemma validateCreateBody_accepts body w :
  create_body_ok body → validateCreateBody body w = (inr (), w).
Proof.
  intros (name & item & Hn & Hi & Hln & Hli).
  unfold validateCreateBody. apply throw_if_false.
  assert (truthy body = true) as ->.
  { destruct body; simplify_eq/=; done. }
  unfold is_string, length_of, string_of. rewrite Hn, Hi. simpl.
  rewrite !js_length_nat.
  repeat (apply orb_false_intro); try done; apply Z.ltb_ge; lia.
Qed.

Lemma validateCreateBody_rejects body w :
  ¬ create_body_ok body →
  validateCreateBody body w = (inl (InvalidInputError "Invalid request body"), w).
Proof.
  intros Hbad. unfold validateCreateBody. apply throw_if_true.
  apply not_false_iff_true. intros Hc. apply Hbad.
  repeat (apply orb_false_elim in Hc as [Hc ?]).
  unfold is_string, length_of, string_of in *.
  destruct (prop body "requestorName") as [[]|] eqn:Hn; simplify_eq/=.
  destruct (prop body "itemRequested") as [[]|] eqn:Hi; simplify_eq/=.
  rewrite !js_length_nat in *.
  repeat match goal with H : (_ <? _) = false |- _ => apply Z.ltb_ge in H end.
  eexists _, _. split_and!; [done | done | lia..].
Qed.

Lemma classic_create body : create_body_ok body ∨ ¬ create_body_ok body.
Proof.
  unfold create_body_ok.
  destruct (prop body "requestorName") as [[| | | name | | | |] |];
    try (right; intros (? & ? & ? & ? & ? & ?); congruence).
  destruct (prop body "itemRequested") as [[| | | item | | | |] |];
    try (right; intros (? & ? & ? & ? & ? & ?); congruence).
  destruct (decide ((3 ≤ length name ≤ 30)%nat ∧ (2 ≤ length item ≤ 100)%nat))
    as [[? ?] | Hno].
  - left. by exists name, item.
  - right. intros (? & ? & ? & ? & ? & ?). simplify_eq. by apply Hno.
Qed.

Lemma PUT_invalid env request body w :
  json request = Some body → ¬ create_body_ok body →
  PUT env request w = (inr (ServerResponse INVALID_INPUT), w).
Proof.
  intros Hj Hbad. unfold PUT.
  rewrite (try_catch_throw _ _ (InvalidInputError "Invalid request body") w w);
    [done |].
  unfold request_json. rewrite Hj.
  erewrite bind_ret by done.
  eapply bind_throw. by apply validateCreateBody_rejects.
Qed.

(** C1.  A create request whose [requestorName] is a string shorter than 3
    or longer than 30, or whose [itemRequested] is a string shorter than 2 or
    longer than 100, gets the input-validation response, and the world is
    left as it was: no collection changes and no driver call, hence no
    insert, is issued. *)
Theorem PUT_rejects_out_of_bounds env request body w :
  json request = Some body →
  (∃ s, prop body "requestorName" = Some (JStr s)
        ∧ (length s < 3 ∨ 30 < length s)%nat)
  ∨ (∃ s, prop body "itemRequested" = Some (JStr s)
          ∧ (length s < 2 ∨ 100 < length s)%nat) →
  PUT env request w = (inr (ServerResponse INVALID_INPUT), w).
Proof.
  intros Hj Hbad. apply (PUT_invalid _ _ body); [done |].
  intros (name & item & Hn & Hi & Hln & Hli).
  destruct Hbad as [(s & Hs & Hl) | (s & Hs & Hl)]; simplify_eq; lia.
Qed.

Lemma PUT_rejects_out_of_bounds_witness :
  PUT {| date_now := 1000; generated_id := js "65f0a1b2c3d4e5f60718293a" |}
      (json_request (JObj (<["requestorName" := JStr (js "Al")]>
                          (<["itemRequested" := JStr (js "stapler")]> ∅))))
      empty_world
  = (inr (ServerResponse INVALID_INPUT), empty_world).
Proof.
  eapply PUT_rejects_out_of_bounds; [reflexivity |].
  left. exists (js "Al"). split; [reflexivity | simpl; lia].
Defined.

(** ** The world under driver calls *)

Lemma docs_of_issue name c w : docs_of name (issue c w) = docs_of name w.
Proof. done. Qed.

Lemma docs_of_store name c w : docs_of name (store name c w) = docs c.
Proof. unfold docs_of, store. simpl. by rewrite lookup_insert_eq. Qed.

Lemma docs_of_store_ne name name' c w :
  name ≠ name' → docs_of name' (store name c w) = docs_of name' w.
Proof. intros. unfold docs_of, store. simpl. by rewrite lookup_insert_ne. Qed.

Lemma creations_cons c cs :
  creations (c :: cs)
  = ((if decide (c = CreateCollection "requests") then 1 else 0) + creations cs)%nat.
Proof. unfold creations. rewrite filter_cons. by destruct (decide _). Qed.

(** ** ensureRequestsCollection *)

Lemma ensure_run w : ensureRequestsCollection w = (inr (), ensured w).
Proof.
  unfold ensureRequestsCollection, ensured, bind, listCollections, createCollection.
  case_bool_decide as Hex; simpl; [done |].
  destruct (db w !! "requests") eqn:Hdb; [| done].
  exfalso. apply Hex. by eexists.
Qed.

Lemma ensured_is_Some w : is_Some (db (ensured w) !! "requests").
Proof.
  unfold ensured. case_bool_decide; [done |].
  simpl. rewrite lookup_insert_eq. by eexists.
Qed.

Lemma docs_of_ensured name w : docs_of name (ensured w) = docs_of name w.
Proof.
  unfold ensured. case_bool_decide as Hex; [done |].
  destruct (decide (name = "requests")) as [-> | Hne].
  - rewrite docs_of_store. unfold docs_of. simpl.
    destruct (db w !! "requests") eqn:Hdb; [| done].
    exfalso. apply Hex. by eexists.
  - by rewrite docs_of_store_ne.
Qed.

Lemma ensured_existing w :
  is_Some (db w !! "requests") → ensured w = issue (ListCollections "requests") w.
Proof. intros. unfold ensured. by rewrite bool_decide_eq_true_2. Qed.

Lemma repeat_ensure_existing n w :
  is_Some (db w !! "requests") →
  ∃ w', repeat_ensure n w = (inr (), w') ∧ db w' = db w
        ∧ ∃ new, calls w' = calls w ++ new ∧ creations new = 0%nat.
Proof.
  revert w. induction n as [| n IH]; intros w Hex; simpl.
  - exists w. split_and!; [done | done |]. exists []. by rewrite app_nil_r.
  - erewrite bind_ret by apply ensure_run.
    rewrite ensured_existing by done.
    destruct (IH (issue (ListCollections "requests") w)) as (w' & Hrun & Hdb & new & Hc & Hn);
      [done |].
    exists w'. split_and!; [done | done |].
    exists (ListCollections "requests" :: new). split.
    + rewrite Hc. simpl. by rewrite <- app_assoc.
    + rewrite creations_cons, Hn. case_decide; simplify_eq; simpl; lia.
Qed.

(** C8.  [ensureRequestsCollection] is idempotent.  When a collection named
    "requests" exists, a call only lists the collections: the database is
    unchanged and no [createCollection] is issued.  From any world, every
    number of calls in sequence returns normally, leaves the database that
    the first call leaves, and issues [createCollection] at most once. *)
Theorem ensureRequestsCollection_idempotent w :
  (is_Some (db w !! "requests") →
   ensureRequestsCollection w = (inr (), issue (ListCollections "requests") w))
  ∧ ∀ n, ∃ w1 wn new,
      ensureRequestsCollection w = (inr (), w1)
      ∧ repeat_ensure (S n) w = (inr (), wn)
      ∧ db wn = db w1
      ∧ calls wn = calls w ++ new
      ∧ (creations new ≤ 1)%nat.
Proof.
  split.
  - intros Hex. rewrite ensure_run. by rewrite ensured_existing.
  - intros n. simpl. erewrite bind_ret by apply ensure_run.
    destruct (repeat_ensure_existing n (ensured w) (ensured_is_Some w))
      as (wn & Hrun & Hdb & new & Hc & Hn).
    exists (ensured w), wn.
    unfold ensured in Hc. case_bool_decide as Hex; simpl in Hc.
    + exists (ListCollections "requests" :: new).
      split_and!; [apply ensure_run | done | done | |].
      * rewrite Hc. by rewrite <- app_assoc.
      * rewrite creations_cons, Hn. case_decide; simplify_eq; simpl; lia.
    + exists (ListCollections "requests" :: CreateCollection "requests" :: new).
      split_and!; [apply ensure_run | done | done | |].
      * rewrite Hc. by rewrite <- !app_assoc.
      * rewrite !creations_cons, Hn. repeat case_decide; simplify_eq; simpl; lia.
Qed.

(** ** The create handler *)

Lemma docs_requests_of w : docs (requests_of w) = docs_of "requests" w.
Proof. unfold requests_of, docs_of. by destruct (db w !! "requests"). Qed.

Lemma PUT_valid env request body name item w :
  json request = Some body →
  prop body "requestorName" = Some (JStr name) →
  prop body "itemRequested" = Some (JStr item) →
  (3 ≤ length name ≤ 30)%nat → (2 ≤ length item ≤ 100)%nat →
  PUT env request w =
    let c := requests_of (ensured w) in
    let d := created_doc env name item in
    let w' := issue (InsertOne "requests") (ensured w) in
    if insert_refused c env d then (inr (ServerResponse UNKNOWN_ERROR), w')
    else (inr (JsonResponse 201 (BodyDocument d)),
          store "requests" {| validator := validator c; docs := docs c ++ [d] |} w').
Proof.
  intros Hj Hn Hi Hln Hli.
  assert (create_body_ok body) as Hok by (by exists name, item).
  unfold PUT, try_catch, bind, request_json. rewrite Hj. simpl.
  rewrite validateCreateBody_accepts, ensure_run by done.
  unfold insertOne, insert_refused, requests_of, created_doc.
  rewrite Hn, Hi. simpl.
  destruct (validator_ok _ _); simpl; [| done].
  by destruct (existsb _ _).
Qed.

(** Every run of [PUT] either answers with a built error response and leaves
    all documents in place, or answers 201 and appends [created_doc] to the
    requests collection. *)
Lemma PUT_cases env request w :
  (∃ t w', PUT env request w = (inr (ServerResponse t), w')
           ∧ ∀ n, docs_of n w' = docs_of n w)
  ∨ (∃ name item w',
       PUT env request w
       = (inr (JsonResponse 201 (BodyDocument (created_doc env name item))), w')
       ∧ as_string (prop (default JNull (json request)) "requestorName") = Some name
       ∧ as_string (prop (default JNull (json request)) "itemRequested") = Some item
       ∧ (3 ≤ length name ≤ 30)%nat ∧ (2 ≤ length item ≤ 100)%nat
       ∧ docs_of "requests" w' = docs_of "requests" w ++ [created_doc env name item]
       ∧ ∀ n, n ≠ "requests" → docs_of n w' = docs_of n w).
Proof.
  destruct (json request) as [body |] eqn:Hj.
  - destruct (classic_create body) as [(name & item & Hn & Hi & Hln & Hli) | Hbad].
    + rewrite (PUT_valid env request body name item) by done. simpl.
      destruct (insert_refused _ _ _).
      * left. eexists _, _. split; [done |]. intros n.
        by rewrite docs_of_issue, docs_of_ensured.
      * right. exists name, item. eexists. split; [done |].
        simpl. rewrite Hn, Hi. split_and!; try done; try lia.
        -- by rewrite docs_of_store, docs_requests_of, docs_of_ensured.
        -- intros n Hne.
           by rewrite docs_of_store_ne, docs_of_issue, docs_of_ensured.
    + left. eexists _, _. split; [by apply (PUT_invalid _ _ body) | done].
  - left. eexists _, _. split; [| done].
    unfold PUT, try_catch, bind, request_json. by rewrite Hj.
Qed.

Lemma created_doc_fields env name item :
  let d := created_doc env name item in
  d !! "_id" = Some (JOid (generated_id env))
  ∧ d !! "requestorName" = Some (JStr name)
  ∧ d !! "itemRequested" = Some (JStr item)
  ∧ d !! "createdDate" = Some (JDate (date_now env))
  ∧ d !! "lastEditedDate" = Some (JDate (date_now env))
  ∧ d !! "status" = Some (JStr (js "pending")).
Proof. by split_and!. Qed.

(** C3.  Whatever [PUT] appends to a collection is appended to the requests
    collection, has status "pending", and has the clock reading of the call
    both as [createdDate] and as [lastEditedDate], whatever status or
    timestamps the request body holds. *)
Theorem PUT_inserts_pending env request w r w' n new d :
  PUT env request w = (r, w') →
  docs_of n w' = docs_of n w ++ new → d ∈ new →
  n = "requests"
  ∧ d !! "status" = Some (JStr (js "pending"))
  ∧ d !! "createdDate" = Some (JDate (date_now env))
  ∧ d !! "lastEditedDate" = d !! "createdDate".
Proof.
  intros Hrun Hnew Hin.
  assert (∀ l : list Document, l = l ++ new → False) as Hnone.
  { intros l Hl. rewrite <- (app_nil_r l) in Hl at 1.
    apply app_inv_head in Hl. subst new. by apply not_elem_of_nil in Hin. }
  destruct (PUT_cases env request w)
    as [(t & w1 & Hput & Hsame)
       | (name & item & w1 & Hput & _ & _ & _ & _ & Hreq & Hother)];
    rewrite Hput in Hrun; simplify_eq.
  - rewrite Hsame in Hnew. by destruct (Hnone _ Hnew).
  - destruct (decide (n = "requests")) as [-> | Hne].
    + rewrite Hreq in Hnew. apply app_inv_head in Hnew. subst new.
      apply list_elem_of_singleton in Hin as ->.
      destruct (created_doc_fields env name item) as (_ & _ & _ & Hc & He & Hs).
      by rewrite Hs, Hc, He.
    + rewrite Hother in Hnew by done. by destruct (Hnone _ Hnew).
Qed.

Lemma PUT_inserts_pending_witness :
  "requests" = "requests"
  ∧ created_doc sample_env (js "Alice") (js "pen") !! "status"
    = Some (JStr (js "pending"))
  ∧ created_doc sample_env (js "Alice") (js "pen") !! "createdDate"
    = Some (JDate 1000)
  ∧ created_doc sample_env (js "Alice") (js "pen") !! "lastEditedDate"
    = created_doc sample_env (js "Alice") (js "pen") !! "createdDate".
Proof.
  apply (PUT_inserts_pending sample_env sample_create empty_world
           (PUT sample_env sample_create empty_world).1
           (PUT sample_env sample_create empty_world).2
           "requests" [created_doc sample_env (js "Alice") (js "pen")]).
  - by destruct (PUT sample_env sample_create empty_world).
  - by_evaluation.
  - apply list_elem_of_singleton. reflexivity.
Defined.

(** ** The create handler against the storage schema *)

Lemma map_to_list_created env name item :
  map_to_list (created_doc env name item)
  = [("_id", JOid (generated_id env)); ("status", JStr (js "pending"));
     ("createdDate", JDate (date_now env)); ("itemRequested", JStr item);
     ("requestorName", JStr name); ("lastEditedDate", JDate (date_now env))].
Proof. vm_compute. reflexivity. Qed.

(** On the documents that [PUT] builds, the schema of the requests
    collection comes down to its four length bounds. *)
Lemma created_doc_schema_ok env name item :
  schema_ok requestsSchema (created_doc env name item)
  = (3 <=? schema_length name)%nat && (schema_length name <=? 30)%nat
    && (2 <=? schema_length item)%nat && (schema_length item <=? 100)%nat.
Proof.
  unfold schema_ok. rewrite map_to_list_created.
  destruct (created_doc_fields env name item) as (Hid & Hn & Hi & Hc & He & Hs).
  cbn -[schema_length js created_doc Nat.leb].
  rewrite Hid, Hn, Hi, Hc, He, Hs.
  unfold property_ok. cbn -[schema_length js Nat.leb].
  generalize (3 <=? schema_length name)%nat (schema_length name <=? 30)%nat
             (2 <=? schema_length item)%nat (schema_length item <=? 100)%nat.
  intros [] [] [] []; vm_compute; reflexivity.
Qed.

Lemma code_points_length_le s : (length (code_points s) ≤ length s)%nat.
Proof.
  induction s as [s IH] using (induction_ltof1 _ (@length N)).
  unfold ltof in IH.
  destruct s as [| c [| lo t]]; simpl; [lia | lia |].
  destruct (isHighSurrogate c && isLowSurrogate lo).
  - specialize (IH t). simpl in IH. simpl. lia.
  - specialize (IH (lo :: t)). simpl in IH. simpl. lia.
Qed.

(** A string without high surrogates has one code point per code unit. *)
Lemma code_points_length_bmp s :
  Forall (λ c, isHighSurrogate c = false) s → length (code_points s) = length s.
Proof.
  induction s as [s IH] using (induction_ltof1 _ (@length N)).
  unfold ltof in IH.
  destruct s as [| c [| lo t]]; [done | done |].
  intros HF. inversion HF as [| ? ? Hc HF']; subst.
  specialize (IH (lo :: t)). simpl in IH. simpl. rewrite Hc. simpl.
  rewrite IH; [done | lia | done].
Qed.

(** After the boundary check of [PUT] the schema can only fail on its two
    lower length bounds. *)
Lemma created_doc_schema_ok_lower env name item :
  (3 ≤ length name ≤ 30)%nat → (2 ≤ length item ≤ 100)%nat →
  schema_ok requestsSchema (created_doc env name item) = true
  ↔ (3 ≤ schema_length name)%nat ∧ (2 ≤ schema_length item)%nat.
Proof.
  intros Hln Hli. rewrite created_doc_schema_ok. unfold schema_length.
  pose proof (code_points_length_le name). pose proof (code_points_length_le item).
  rewrite !andb_true_iff, !Nat.leb_le. lia.
Qed.

(** Where the names and items carry no character outside the Basic
    Multilingual Plane, the boundary check of [PUT] implies the schema. *)
Lemma created_doc_schema_ok_bmp env name item :
  (3 ≤ length name ≤ 30)%nat → (2 ≤ length item ≤ 100)%nat →
  Forall (λ c, isHighSurrogate c = false) name →
  Forall (λ c, isHighSurrogate c = false) item →
  schema_ok requestsSchema (created_doc env name item) = true.
Proof.
  intros Hln Hli Hn Hi. rewrite created_doc_schema_ok. unfold schema_length.
  rewrite !code_points_length_bmp by done.
  repeat (apply andb_true_intro; split); apply Nat.leb_le; lia.
Qed.

(** C7, evaluated.  The item U+1F600 has [length] 2 and is one
    character.  [validateCreateBody] accepts the body; the document that
    [PUT] builds fails [requestsSchema]; a validated collection refuses the
    insert and the handler answers with the unknown-error response; a
    requests collection without validator stores the document. *)
Theorem PUT_accepts_what_schema_refuses :
  let d := created_doc sample_env (js "Alice") [0xD83D; 0xDE00]%N in
  (∃ body, json astral_create = Some body
           ∧ validateCreateBody body empty_world = (inr (), empty_world))
  ∧ schema_ok requestsSchema d = false
  ∧ (PUT sample_env astral_create empty_world).1
    = inr (ServerResponse UNKNOWN_ERROR)
  ∧ docs_of "requests" (PUT sample_env astral_create empty_world).2 = []
  ∧ (PUT sample_env astral_create unvalidated_world).1
    = inr (JsonResponse 201 (BodyDocument d))
  ∧ docs_of "requests" (PUT sample_env astral_create unvalidated_world).2 = [d].
Proof.
  intros d. split_and!; [| by_evaluation ..].
  eexists. split; [reflexivity | by_evaluation].
Qed.

(** ** The status-update handlers *)

Lemma patch_request_Some `{Platform} body oid st :
  patch_request body = Some (oid, st) ↔
  ∃ sid, prop body "id" = Some (JStr sid) ∧ trim sid ≠ []
         ∧ ObjectId_parse sid = Some oid
         ∧ prop body "status" = Some (JStr st) ∧ st ∈ ALLOWED_STATUSES.
Proof.
  unfold patch_request, includes. split.
  - destruct (prop body "id") as [[| | | sid | | | |] |]; try done.
    destruct (prop body "status") as [[| | | st' | | | |] |]; try done.
    repeat case_bool_decide; try done.
    destruct (ObjectId_parse sid) eqn:Hp; simpl; [| done].
    intros; simplify_eq. by exists sid.
  - intros (sid & -> & Hsid & Hp & -> & Hst).
    rewrite bool_decide_eq_false_2, bool_decide_eq_true_2, Hp by done. done.
Qed.

Lemma truthy_body_prop body k v : prop body k = Some v → truthy body = true.
Proof. by destruct body. Qed.

Lemma validatePatchBody_accepts `{Platform} body oid st w :
  patch_request body = Some (oid, st) → validatePatchBody body w = (inr (), w).
Proof.
  intros (sid & Hid & Hsid & Hp & Hst & Hin)%patch_request_Some.
  unfold validatePatchBody, bind.
  rewrite throw_if_false; cycle 1.
  { rewrite (truthy_body_prop _ _ _ Hid). unfold is_string, string_of.
    rewrite Hid. simpl. by rewrite bool_decide_eq_false_2. }
  apply throw_if_false.
  unfold is_string, string_of, includes. rewrite Hst. simpl.
  by rewrite bool_decide_eq_true_2.
Qed.

Lemma patch_request_reads `{Platform} body oid st :
  patch_request body = Some (oid, st) →
  ObjectId_parse (string_of (prop body "id")) = Some oid
  ∧ bson_of (prop body "status") = JStr st.
Proof.
  intros (sid & Hid & Hsid & Hp & Hst & Hin)%patch_request_Some.
  unfold string_of. by rewrite Hid, Hst.
Qed.

(** A body that [patch_request] does not read fails [validatePatchBody] or
    the [ObjectId.isValid] check that follows it. *)
Lemma patch_request_None `{Platform} body w :
  patch_request body = None →
  (∃ msg, validatePatchBody body w = (inl (InvalidInputError msg), w))
  ∨ (validatePatchBody body w = (inr (), w)
     ∧ ObjectId_isValid (string_of (prop body "id")) = false).
Proof.
  intros Hnone. unfold validatePatchBody, bind, patch_request in *.
  unfold is_string, string_of, includes, ObjectId_isValid in *.
  destruct (truthy body) eqn:Htr; simpl; [| left; by eexists].
  destruct (prop body "id") as [[| | | sid | | | |] |]; simpl;
    try (left; by eexists).
  case_bool_decide; simpl; [left; by eexists |].
  destruct (prop body "status") as [[| | | st | | | |] |]; simpl;
    try (left; by eexists).
  case_bool_decide; simpl; [| left; by eexists].
  destruct (ObjectId_parse sid); simpl in *; [done |].
  by right.
Qed.

Lemma PATCH_invalid `{Platform} rev env request body w :
  json request = Some body → patch_request body = None →
  PATCH_of rev env request w = (inr (ServerResponse INVALID_INPUT), w).
Proof.
  intros Hj Hnone.
  destruct (patch_request_None body w Hnone) as [[msg Hv] | [Hv Hbad]];
    destruct rev; simpl; unfold Untyped.PATCH, Typed.PATCH;
    unfold try_catch, bind, request_json; rewrite Hj; simpl; rewrite Hv;
    try done; by rewrite Hbad.
Qed.

Lemma PATCH_valid `{Platform} rev env request body oid st w :
  json request = Some body → patch_request body = Some (oid, st) →
  PATCH_of rev env request w =
    match findOneAndUpdate "requests" oid (patch_fields env st) (ensured w) with
    | (inl e, w') => on_error e w'
    | (inr result, w') => (inr (patch_response rev result), w')
    end.
Proof.
  intros Hj Hreq.
  destruct (patch_request_reads body oid st Hreq) as [Hp Hst].
  pose proof (validatePatchBody_accepts body oid st w Hreq) as Hv.
  destruct rev; simpl; unfold Untyped.PATCH, Typed.PATCH, patch_response;
    unfold try_catch, bind, request_json, new_ObjectId, ObjectId_isValid;
    rewrite Hj; simpl; rewrite Hv, Hp, Hst;
    cbn -[findOneAndUpdate ensureRequestsCollection];
    rewrite ensure_run; cbn -[findOneAndUpdate ensured];
    fold (patch_fields env st);
    destruct (findOneAndUpdate _ _ _ _) as [[e | result] w']; try done.
  - destruct (negb (truthy result) || negb (truthy_opt (prop result "value")));
      simpl; [done |]. by destruct (to_item _).
  - destruct (negb (truthy result)); simpl; [done |]. by destruct (to_item _).
Qed.

(** C4.  A status update whose [status] is not one of the four allowed
    strings, or whose [id] is not a string that is non-blank and parses as
    an ObjectId (so a missing [id], the empty string, and a string that is
    no valid ObjectId), gets the input-validation response from either
    revision of [PATCH], and the world is left as it was: no record changes
    and no driver call is issued. *)
Theorem PATCH_rejects_bad_id_or_status `{Platform} rev env request body w :
  json request = Some body →
  (∀ s, prop body "status" = Some (JStr s) → s ∉ ALLOWED_STATUSES)
  ∨ (∀ s, prop body "id" = Some (JStr s) → trim s = [] ∨ ObjectId_parse s = None) →
  PATCH_of rev env request w = (inr (ServerResponse INVALID_INPUT), w).
Proof.
  intros Hj Hbad. apply (PATCH_invalid _ _ _ body); [done |].
  destruct (patch_request body) as [[oid st] |] eqn:Hreq; [| done].
  apply patch_request_Some in Hreq as (sid & Hid & Hsid & Hp & Hst & Hin).
  destruct Hbad as [Hs | Hi].
  - by destruct (Hs st Hst).
  - destruct (Hi sid Hid) as [Hblank | Hnone]; [done | congruence].
Qed.

Lemma PATCH_rejects_bad_id_or_status_witness :
  @PATCH_of (platform DocumentShape 10) TypedRevision sample_env
    patch_without_id sample_world
  = (inr (ServerResponse INVALID_INPUT), sample_world).
Proof.
  eapply (@PATCH_rejects_bad_id_or_status (platform DocumentShape 10));
    [reflexivity |].
  right. intros s Hs. discriminate Hs.
Defined.

(** ** The effect of a status update *)

Lemma findOneAndUpdate_ensured `{Platform} oid fields w :
  findOneAndUpdate "requests" oid fields (ensured w) =
    let c := requests_of (ensured w) in
    let w1 := issue (FindOneAndUpdate "requests") (ensured w) in
    match list_find (λ d, has_id oid d) (docs c) with
    | None => (inr (shape_result None), w1)
    | Some (i, d) =>
        if validator_ok c (apply_set fields d)
        then (inr (shape_result (Some (apply_set fields d))),
              store "requests"
                {| validator := validator c;
                   docs := <[i := apply_set fields d]> (docs c) |} w1)
        else (inl (MongoServerError 121), w1)
    end.
Proof.
  unfold findOneAndUpdate, requests_of.
  destruct (ensured_is_Some w) as [c ->]. done.
Qed.

(** Without a match both revisions answer with a built error response. *)
Lemma patch_response_no_match `{Platform} rev :
  ∃ t, patch_response rev (shape_result None) = ServerResponse t.
Proof.
  unfold patch_response, shape_result.
  destruct rev, findOneAndUpdate_shape; by eexists.
Qed.

Lemma apply_set_patch_fields env st (d : Document) :
  apply_set (patch_fields env st) d
  = <["lastEditedDate" := JDate (date_now env)]> (<["status" := JStr st]> d).
Proof. done. Qed.

Lemma apply_set_patch_fields_lookup env st (d : Document) :
  let d' := apply_set (patch_fields env st) d in
  d' !! "status" = Some (JStr st)
  ∧ d' !! "lastEditedDate" = Some (JDate (date_now env))
  ∧ ∀ k, k ≠ "status" → k ≠ "lastEditedDate" → d' !! k = d !! k.
Proof.
  cbv zeta. rewrite apply_set_patch_fields. split_and!.
  - rewrite lookup_insert_ne by done. by rewrite lookup_insert_eq.
  - by rewrite lookup_insert_eq.
  - intros k Hs He. by rewrite !lookup_insert_ne.
Qed.

(** What a status update with a readable body does to the world: either
    it answers with a built error response and leaves all documents in
    place, or it has found the record at some position and replaced it by
    the record with the two fields set. *)
Lemma PATCH_valid_cases `{Platform} rev env request body oid st w :
  json request = Some body → patch_request body = Some (oid, st) →
  (∃ t w', PATCH_of rev env request w = (inr (ServerResponse t), w')
           ∧ ∀ n, docs_of n w' = docs_of n w)
  ∨ (∃ i d w',
       PATCH_of rev env request w
       = (inr (patch_response rev
                 (shape_result (Some (apply_set (patch_fields env st) d)))), w')
       ∧ docs_of "requests" w !! i = Some d
       ∧ d !! "_id" = Some (JOid oid)
       ∧ docs_of "requests" w'
         = <[i := apply_set (patch_fields env st) d]> (docs_of "requests" w)
       ∧ ∀ n, n ≠ "requests" → docs_of n w' = docs_of n w).
Proof.
  intros Hj Hreq. rewrite (PATCH_valid rev env request body oid st) by done.
  rewrite findOneAndUpdate_ensured. simpl.
  rewrite docs_requests_of, docs_of_ensured.
  destruct (list_find _ _) as [[i d] |] eqn:Hfind.
  - apply list_find_Some in Hfind as (Hi & Hid & _).
    destruct (validator_ok _ _).
    + right. exists i, d. eexists. split_and!; [done | done | | |].
      * unfold has_id in Hid.
        destruct (d !! "_id") as [[| | | | | | | o] |]; try done.
        by apply bool_decide_unpack in Hid as ->.
      * by rewrite docs_of_store.
      * intros n Hne. by rewrite docs_of_store_ne, docs_of_issue, docs_of_ensured.
    + left. eexists _, _. split; [done |]. intros n.
      by rewrite docs_of_issue, docs_of_ensured.
  - left. destruct (patch_response_no_match rev) as [t ->].
    eexists _, _. split; [done |]. intros n.
    by rewrite docs_of_issue, docs_of_ensured.
Qed.

(** ** The list handler *)

(** Every run of [GET] either answers with a built error response, or
    answers 200 with the page it read; no document changes. *)
Lemma GET_cases `{Platform} request w :
  (∃ t w', GET request w = (inr (ServerResponse t), w')
           ∧ ∀ n, docs_of n w' = docs_of n w)
  ∨ (∃ p items w',
       GET request w
       = (inr (JsonResponse 200
                 (BodyList items
                    {| page := p; pageSize := PAGINATION_PAGE_SIZE;
                       totalPages :=
                         total_pages (Z.of_nat (length (matching request w)))
                           PAGINATION_PAGE_SIZE;
                       totalCount := Z.of_nat (length (matching request w)) |})),
          w')
       ∧ requested_page request = Some p ∧ 1 ≤ p
       ∧ 0 ≤ (p - 1) * PAGINATION_PAGE_SIZE
       ∧ (∀ s, requested_status request = Some s → s ∈ ALLOWED_STATUSES)
       ∧ mapM (λ d, to_item (JObj d))
           (cursor_limit PAGINATION_PAGE_SIZE
              (drop (Z.to_nat ((p - 1) * PAGINATION_PAGE_SIZE))
                 (sorted_matching request w)))
         = Some items
       ∧ ∀ n, docs_of n w' = docs_of n w).
Proof.
  unfold GET, sorted_matching, matching, requested_page, requested_status.
  destruct (parseInt10 _) as [p |]; [| left; by eexists _, _].
  destruct (p <? 1) eqn:Hp; [left; by eexists _, _ |].
  apply Z.ltb_ge in Hp.
  set (query := match searchParams_get request (js "status") with
                | Some (c :: t) => Some (c :: t)
                | _ => None
                end).
  assert (match searchParams_get request (js "status") with
          | Some (c :: t) => negb (includes ALLOWED_STATUSES (c :: t))
          | _ => false
          end = match query with
                | Some s => negb (includes ALLOWED_STATUSES s)
                | None => false
                end) as ->.
  { unfold query. by destruct (searchParams_get _ _) as [[| ? ?] |]. }
  destruct (match query with Some s => _ | None => false end) eqn:Hst;
    [left; by eexists _, _ |].
  unfold try_catch, bind. rewrite ensure_run.
  unfold countDocuments, find_sorted_page. simpl.
  rewrite docs_of_issue, !docs_of_ensured.
  destruct (_ <? 0) eqn:Hskip; simpl.
  { left. eexists _, _. split; [done |]. intros n.
    by rewrite !docs_of_issue, docs_of_ensured. }
  apply Z.ltb_ge in Hskip.
  destruct (mapM _ _) as [items |] eqn:Hitems; simpl.
  - right. exists p, items. eexists. split_and!; try done.
    + intros s Hs. change (query = Some s) in Hs.
      rewrite Hs in Hst. unfold includes in Hst.
      apply negb_false_iff in Hst. by apply bool_decide_eq_true in Hst.
    + intros n. by rewrite !docs_of_issue, docs_of_ensured.
  - left. eexists _, _. split; [done |]. intros n.
    by rewrite !docs_of_issue, docs_of_ensured.
Qed.

(** A list request with a readable page and an allowed status, if any,
    reaches the database and gets the page, unless rendering an item
    throws. *)
Lemma GET_valid `{Platform} request p w :
  requested_page request = Some p → 1 ≤ p →
  (∀ s, requested_status request = Some s → s ∈ ALLOWED_STATUSES) →
  0 ≤ (p - 1) * PAGINATION_PAGE_SIZE →
  GET request w =
    let w' := issue (Find "requests")
                (issue (CountDocuments "requests") (ensured w)) in
    match mapM (λ d, to_item (JObj d))
            (cursor_limit PAGINATION_PAGE_SIZE
               (drop (Z.to_nat ((p - 1) * PAGINATION_PAGE_SIZE))
                  (sorted_matching request w))) with
    | Some items =>
        (inr (JsonResponse 200
                (BodyList items
                   {| page := p; pageSize := PAGINATION_PAGE_SIZE;
                      totalPages :=
                        total_pages (Z.of_nat (length (matching request w)))
                          PAGINATION_PAGE_SIZE;
                      totalCount := Z.of_nat (length (matching request w)) |})),
         w')
    | None => (inr (ServerResponse UNKNOWN_ERROR), w')
    end.
Proof.
  intros Hp H1 Hst Hskip.
  unfold GET. fold (requested_page request). rewrite Hp.
  rewrite (proj2 (Z.ltb_ge p 1)) by done.
  unfold sorted_matching, matching, requested_status in *.
  destruct (searchParams_get request (js "status")) as [[| c0 t0] |] eqn:Hq;
    try (unfold includes; rewrite bool_decide_eq_true_2 by (by apply Hst));
    simpl; unfold try_catch, bind; rewrite ensure_run;
    unfold countDocuments, find_sorted_page; simpl;
    rewrite (proj2 (Z.ltb_ge _ 0)) by done;
    rewrite docs_of_issue, !docs_of_ensured;
    by destruct (mapM _ _).
Qed.

(** *** The page count *)

Lemma Qceiling_quotient c ps :
  0 < ps → Qceiling (inject_Z c / inject_Z ps) = - ((- c) / ps).
Proof.
  intros Hps. destruct ps as [| q | q]; try lia.
  unfold Qceiling, Qfloor, Qdiv, Qmult, Qinv, Qopp, inject_Z. simpl.
  by rewrite Z.mul_1_r.
Qed.

(** [Math.ceil(c / ps)] is the least number of pages of size [ps] that hold
    [c] records. *)
Lemma Qceiling_quotient_spec c ps :
  0 < ps →
  let n := Qceiling (inject_Z c / inject_Z ps) in
  (n - 1) * ps < c ≤ n * ps.
Proof.
  intros Hps. cbv zeta. rewrite Qceiling_quotient by done.
  pose proof (Z.div_mod (- c) ps) as Hdm.
  pose proof (Z.mod_pos_bound (- c) ps Hps) as Hmod.
  nia.
Qed.

(** C5.  In a successful list response, with a positive page size, the
    page size is the configured one, [totalCount] is the number of records
    that match the filter, and [totalPages] is the larger of 1 and the
    ceiling of [totalCount / pageSize]: the ceiling is the [n] with
    [(n - 1) * pageSize < totalCount ≤ n * pageSize].  With no matching
    record [totalPages] is 1. *)
Theorem GET_totalPages `{Platform} request w code items pg w' :
  0 < PAGINATION_PAGE_SIZE →
  GET request w = (inr (JsonResponse code (BodyList items pg)), w') →
  pageSize pg = PAGINATION_PAGE_SIZE
  ∧ totalCount pg = Z.of_nat (length (matching request w))
  ∧ (∃ n, (n - 1) * pageSize pg < totalCount pg ≤ n * pageSize pg
          ∧ totalPages pg = Z.max 1 n)
  ∧ (totalCount pg = 0 → totalPages pg = 1).
Proof.
  intros Hps Hget.
  destruct (GET_cases request w)
    as [(t & w1 & Hrun & _) | (p & items1 & w1 & Hrun & _)];
    rewrite Hrun in Hget; simplify_eq. simpl.
  pose proof (Qceiling_quotient_spec (Z.of_nat (length (matching request w)))
                PAGINATION_PAGE_SIZE Hps) as Hceil.
  cbv zeta in Hceil. split_and!; [done | done | |].
  - eexists. split; [exact Hceil | done].
  - intros Hzero. unfold total_pages. rewrite Hzero in *. nia.
Qed.

Lemma GET_totalPages_witness :
  let pg := {| page := 1; pageSize := 2; totalPages := 2; totalCount := 3 |} in
  pageSize pg = 2
  ∧ totalCount pg = Z.of_nat (length (matching first_page_request three_world))
  ∧ (∃ n, (n - 1) * pageSize pg < totalCount pg ≤ n * pageSize pg
          ∧ totalPages pg = Z.max 1 n)
  ∧ (totalCount pg = 0 → totalPages pg = 1).
Proof.
  apply (@GET_totalPages (platform DocumentShape 2) first_page_request
           three_world 200 first_page
           {| page := 1; pageSize := 2; totalPages := 2; totalCount := 3 |}
           (@GET (platform DocumentShape 2) first_page_request three_world).2).
  - reflexivity.
  - by_evaluation.
Defined.

(** *** The page number *)

Lemma digits_value_seen acc s : is_Some (digits_value acc true s).
Proof.
  revert acc. induction s as [| c t IH]; intros acc; simpl; [by eexists |].
  destruct (isDigit c); [apply IH | by eexists].
Qed.

Lemma digits_value_None s : digits_value 0 false s = None ↔ digit_led s = false.
Proof.
  destruct s as [| c t]; simpl; [done |].
  destruct (isDigit c); [| done].
  destruct (digits_value_seen (10 * 0 + (Z.of_N c - 48)) t) as [v ->]. done.
Qed.

(** [parseInt(s, 10)] is [NaN] exactly when no digit leads the string
    after white space and sign. *)
Lemma parseInt10_None s :
  parseInt10 s = None ↔ digit_led (after_sign (trimStart s)) = false.
Proof.
  unfold parseInt10, after_sign.
  destruct (trimStart s) as [| c t]; [done |].
  destruct (bool_decide (c = 0x2D%N)); simpl orb; cbv iota.
  - rewrite <- digits_value_None.
    destruct (digits_value 0 false t); simpl; split; congruence.
  - destruct (bool_decide (c = 0x2B%N)); apply digits_value_None.
Qed.

(** C6, as the code has it.  A list request whose [page] parameter is read
    by [parseInt(_, 10)] as [NaN] or as a number below 1 gets the
    input-validation response, and nothing else happens.  (An absent or
    empty parameter reads as 1; a page beyond the last one is not
    refused.) *)
Theorem GET_rejects_unreadable_page `{Platform} request w :
  requested_page request = None
  ∨ (∃ p, requested_page request = Some p ∧ p < 1) →
  GET request w = (inr (ServerResponse INVALID_INPUT), w).
Proof.
  unfold requested_page, GET. intros [-> | (p & -> & Hp)]; [done |].
  by rewrite (proj2 (Z.ltb_lt p 1) Hp).
Qed.

Lemma GET_rejects_unreadable_page_witness :
  @GET (platform DocumentShape 10) (list_request [("page", "abc")]) sample_world
  = (inr (ServerResponse INVALID_INPUT), sample_world).
Proof.
  apply (@GET_rejects_unreadable_page (platform DocumentShape 10)).
  left. by_evaluation.
Defined.

(** C6, as stated, fails.  With one record and a page size of 10 there is
    one page; the request for page 7 is answered 200 with no items.  The
    parameter "2abc" is not a number and reads as page 2. *)
Lemma GET_accepts_page_beyond_last :
  (@GET (platform DocumentShape 10) (list_request [("page", "7")]) sample_world).1
  = inr (JsonResponse 200
           (BodyList []
              {| page := 7; pageSize := 10; totalPages := 1; totalCount := 1 |}))
  ∧ (@GET (platform DocumentShape 10) (list_request [("page", "2abc")])
       sample_world).1
    = inr (JsonResponse 200
             (BodyList []
                {| page := 2; pageSize := 10; totalPages := 1; totalCount := 1 |})).
Proof. split; by_evaluation. Qed.

(** *** The page contents *)

Lemma lex_leb_total a b : lex_leb a b = true ∨ lex_leb b a = true.
Proof.
  revert b. induction a as [| x a IH]; intros [| y b]; simpl; auto.
  destruct (Z.ltb_spec x y); [by left |].
  destruct (Z.ltb_spec y x); [by right |].
  assert (x = y) as -> by lia. rewrite Z.eqb_refl. simpl. apply IH.
Qed.

Lemma lex_leb_trans a b c :
  lex_leb a b = true → lex_leb b c = true → lex_leb a c = true.
Proof.
  revert b c. induction a as [| x a IH]; intros [| y b] [| z c]; simpl; try done.
  intros [Hxy | [Hxy Hab]%andb_prop]%orb_prop [Hyz | [Hyz Hbc]%andb_prop]%orb_prop;
    apply orb_true_intro;
    repeat match goal with
           | H : (_ <? _) = true |- _ => apply Z.ltb_lt in H
           | H : (_ =? _) = true |- _ => apply Z.eqb_eq in H
           end.
  - left. apply Z.ltb_lt. lia.
  - left. apply Z.ltb_lt. lia.
  - left. apply Z.ltb_lt. lia.
  - right. apply andb_true_intro. split; [apply Z.eqb_eq; lia | by eapply IH].
Qed.

#[global] Instance createdDate_desc_total : Total createdDate_desc.
Proof.
  intros d1 d2. unfold createdDate_desc.
  destruct (lex_leb_total (sort_key (d2 !! "createdDate"))
              (sort_key (d1 !! "createdDate"))) as [Hle | Hle];
    [left | right]; by rewrite Hle.
Qed.

#[global] Instance createdDate_desc_trans : Transitive createdDate_desc.
Proof.
  intros d1 d2 d3. unfold createdDate_desc.
  intros H12%Is_true_true H23%Is_true_true. apply Is_true_true.
  by eapply lex_leb_trans.
Qed.

(** Between two dates the order of the sort is the later date first. *)
Lemma createdDate_desc_dates (d1 d2 : Document) ms1 ms2 :
  d1 !! "createdDate" = Some (JDate ms1) →
  d2 !! "createdDate" = Some (JDate ms2) →
  createdDate_desc d1 d2 ↔ ms2 ≤ ms1.
Proof.
  intros H1 H2. unfold createdDate_desc. rewrite H1, H2. simpl.
  destruct (Z.ltb_spec ms2 ms1), (Z.eqb_spec ms2 ms1); simpl; split; try done; lia.
Qed.

Lemma elem_of_matching request w d :
  d ∈ matching request w ↔
  d ∈ docs_of "requests" w
  ∧ ∀ s, requested_status request = Some s → d !! "status" = Some (JStr s).
Proof.
  unfold matching. rewrite list_elem_of_filter. unfold matches.
  destruct (requested_status request) as [s |];
    [| split; [by intros [_ ?] | by intros [? _]]].
  destruct (d !! "status") as [[| | | s' | | | |] |]; simpl;
    try (split; [by intros [[] _] | intros [_ Hs]; by specialize (Hs s eq_refl)]).
  rewrite bool_decide_spec. split.
  - intros [-> Hd]. split; [done |]. by intros ? [= ->].
  - intros [Hd Hs]. split; [| done]. specialize (Hs s eq_refl). by simplify_eq.
Qed.

Lemma mapM_to_item_length (l : list Document) items :
  mapM (λ d, to_item (JObj d)) l = Some items → length items = length l.
Proof. intros Hm. apply mapM_Some in Hm. symmetry. by eapply Forall2_length. Qed.

(** C9.  With a positive page size, a successful list response for page
    [p] holds the items of one window of the sorted matches: the matches
    are the records of the requests collection that pass the status filter,
    if there is one; they are sorted by [createdDate], later first; the
    first [(p - 1) * pageSize] of them are skipped and at most [pageSize]
    taken.  A valid request for a page past the matches is answered 200
    with no items. *)
Theorem GET_page_contents `{Platform} request w :
  0 < PAGINATION_PAGE_SIZE →
  (∀ code items pg w',
     GET request w = (inr (JsonResponse code (BodyList items pg)), w') →
     requested_page request = Some (page pg)
     ∧ sorted_matching request w ≡ₚ matching request w
     ∧ StronglySorted createdDate_desc (sorted_matching request w)
     ∧ mapM (λ d, to_item (JObj d))
         (page_window (page pg) (sorted_matching request w)) = Some items
     ∧ Z.of_nat (length items) ≤ PAGINATION_PAGE_SIZE)
  ∧ (∀ p,
       requested_page request = Some p → 1 ≤ p →
       (∀ s, requested_status request = Some s → s ∈ ALLOWED_STATUSES) →
       Z.of_nat (length (matching request w)) ≤ (p - 1) * PAGINATION_PAGE_SIZE →
       ∃ pg w', GET request w = (inr (JsonResponse 200 (BodyList [] pg)), w')
                ∧ page pg = p).
Proof.
  intros Hps.
  assert (∀ l : list Document,
            cursor_limit PAGINATION_PAGE_SIZE l
            = take (Z.to_nat PAGINATION_PAGE_SIZE) l) as Hlimit.
  { intros l. unfold cursor_limit.
    rewrite (proj2 (Z.eqb_neq _ 0)) by lia. by rewrite Z.abs_eq by lia. }
  split.
  - intros code items pg w' Hget.
    destruct (GET_cases request w)
      as [(t & w1 & Hrun & _) | (p & items1 & w1 & Hrun & Hp & _ & _ & _ & Hitems & _)];
      rewrite Hrun in Hget; simplify_eq. simpl.
    rewrite Hlimit in Hitems. split_and!; [done | | | done |].
    + apply merge_sort_Permutation.
    + apply (StronglySorted_merge_sort _).
    + rewrite (mapM_to_item_length _ _ Hitems), length_take. lia.
  - intros p Hp H1 Hst Hpast.
    rewrite (GET_valid request p) by (done || nia). simpl.
    rewrite Hlimit, drop_ge, take_nil; [by eexists _, _ |].
    unfold sorted_matching.
    rewrite (Permutation_length (merge_sort_Permutation _ _)). lia.
Qed.

(** ** Records are updated in place and never deleted *)

Lemma keeps_records_same w w' :
  (∀ n, docs_of n w' = docs_of n w) → keeps_records w w'.
Proof. intros Hsame n i d Hd. exists d. by rewrite Hsame. Qed.

Lemma PUT_keeps_records env request w :
  keeps_records w (PUT env request w).2.
Proof.
  destruct (PUT_cases env request w)
    as [(t & w' & -> & Hsame)
       | (name & item & w' & -> & _ & _ & _ & _ & Hreq & Hother)]; simpl.
  - by apply keeps_records_same.
  - intros n i d Hd. exists d. split; [| done].
    destruct (decide (n = "requests")) as [-> | Hne].
    + rewrite Hreq. by apply lookup_app_l_Some.
    + by rewrite Hother.
Qed.

Lemma GET_keeps_records `{Platform} request w :
  keeps_records w (GET request w).2.
Proof.
  apply keeps_records_same.
  by destruct (GET_cases request w)
    as [(t & w' & -> & Hsame) | (p & items & w' & -> & _ & _ & _ & _ & _ & Hsame)].
Qed.

Lemma PATCH_unread `{Platform} rev env request w :
  json request = None →
  PATCH_of rev env request w = (inr (ServerResponse UNKNOWN_ERROR), w).
Proof.
  intros Hj. destruct rev; simpl; unfold Untyped.PATCH, Typed.PATCH;
    unfold try_catch, bind, request_json; by rewrite Hj.
Qed.

Lemma PATCH_keeps_records `{Platform} rev env request w :
  keeps_records w (PATCH_of rev env request w).2.
Proof.
  destruct (json request) as [body |] eqn:Hj;
    [| rewrite PATCH_unread by done; by apply keeps_records_same].
  destruct (patch_request body) as [[oid st] |] eqn:Hreq;
    [| rewrite (PATCH_invalid _ _ _ body) by done; by apply keeps_records_same].
  destruct (PATCH_valid_cases rev env request body oid st w Hj Hreq)
    as [(t & w' & -> & Hsame) | (i & d & w' & -> & Hi & Hid & Hdocs & Hother)];
    simpl; [by apply keeps_records_same |].
  intros n j d0 Hd0.
  destruct (decide (n = "requests")) as [-> | Hne];
    [| exists d0; by rewrite Hother].
  rewrite Hdocs. destruct (decide (i = j)) as [<- | Hij].
  - assert (d0 = d) as -> by congruence.
    eexists. split.
    + apply list_lookup_insert_eq. by eapply lookup_lt_Some.
    + destruct (apply_set_patch_fields_lookup env st d) as (_ & _ & Hframe).
      by apply Hframe.
  - exists d0. by rewrite list_lookup_insert_ne.
Qed.

(** C2.  When either revision of [PATCH] answers with a JSON response, the
    status update has taken effect ([status_updated]): the matched record
    has [status] set to the requested status and [lastEditedDate] set to
    the clock reading of the call, its [requestorName], [itemRequested],
    [createdDate] and [_id] are as before, and every other record is as
    before.  And no handler of the route ever deletes a record. *)
Theorem PATCH_sets_status_only `{Platform} rev env request w code body w' :
  PATCH_of rev env request w = (inr (JsonResponse code body), w') →
  status_updated env request w w'
  ∧ (∀ h env0 request0 w0, keeps_records w0 (handle h env0 request0 w0).2).
Proof.
  intros Hrun. split.
  - unfold status_updated.
    destruct (json request) as [payload |] eqn:Hj;
      [| rewrite PATCH_unread in Hrun by done; simplify_eq].
    destruct (patch_request payload) as [[oid st] |] eqn:Hreq;
      [| rewrite (PATCH_invalid _ _ _ payload) in Hrun by done; simplify_eq].
    destruct (PATCH_valid_cases rev env request payload oid st w Hj Hreq)
      as [(t & w1 & Hp & _) | (i & d & w1 & Hp & Hi & Hid & Hdocs & Hother)];
      rewrite Hp in Hrun; simplify_eq.
    apply patch_request_Some in Hreq as (sid & Hsid & _ & Hparse & Hst & Hin).
    destruct (apply_set_patch_fields_lookup env st d) as (Hs & He & Hframe).
    exists payload, sid, oid, st, i, d, (apply_set (patch_fields env st) d).
    split_and!; try done; by apply Hframe.
  - intros [| | rev0] env0 request0 w0; simpl.
    + apply PUT_keeps_records.
    + apply GET_keeps_records.
    + apply PATCH_keeps_records.
Qed.

Lemma PATCH_sets_status_only_witness :
  @status_updated (platform DocumentShape 10) later_env sample_patch
    sample_world
    (@PATCH_of (platform DocumentShape 10) TypedRevision later_env
       sample_patch sample_world).2
  ∧ (∀ h env0 request0 w0,
       keeps_records w0 (@handle (platform DocumentShape 10) h env0 request0 w0).2).
Proof.
  apply (@PATCH_sets_status_only (platform DocumentShape 10) TypedRevision
           later_env sample_patch sample_world 200
           (BodyItem sample_updated_item)).
  by_evaluation.
Defined.

(** ** The two revisions of the status-update handler *)

(** Both revisions issue the same driver calls and leave the same world. *)
Lemma PATCH_revisions_same_world `{Platform} env request w :
  (Untyped.PATCH env request w).2 = (Typed.PATCH env request w).2.
Proof.
  change (Untyped.PATCH env request w) with (PATCH_of UntypedRevision env request w).
  change (Typed.PATCH env request w) with (PATCH_of TypedRevision env request w).
  destruct (json request) as [body |] eqn:Hj;
    [| by rewrite !PATCH_unread].
  destruct (patch_request body) as [[oid st] |] eqn:Hreq;
    [| by rewrite !(PATCH_invalid _ _ _ body)].
  rewrite !(PATCH_valid _ env request body oid st) by done.
  destruct (findOneAndUpdate _ _ _ _) as [[e | result] w']; [| done].
  unfold on_error. by destruct (instanceof_InputException e).
Qed.

(** Whatever the driver returns, the revisions answer differently once the
    update has matched a record (one without a field named [value], as the
    schema has it): one of them reports an error after the record has been
    changed. *)
Lemma PATCH_revisions_differ_on_match `{Platform} env request body oid st i d w :
  json request = Some body → patch_request body = Some (oid, st) →
  list_find (λ d, has_id oid d) (docs_of "requests" w) = Some (i, d) →
  d !! "value" = None →
  validator_ok (requests_of (ensured w)) (apply_set (patch_fields env st) d) = true →
  ∃ item t,
    match findOneAndUpdate_shape with
    | DocumentShape =>
        (Untyped.PATCH env request w).1 = inr (ServerResponse INVALID_INPUT)
        ∧ (Typed.PATCH env request w).1 = inr (JsonResponse 200 (BodyItem item))
    | ModifyResultShape =>
        (Untyped.PATCH env request w).1 = inr (JsonResponse 200 (BodyItem item))
        ∧ (Typed.PATCH env request w).1 = inr (ServerResponse t)
    end.
Proof.
  intros Hj Hreq Hfind Hvalue Hok.
  change (Untyped.PATCH env request w) with (PATCH_of UntypedRevision env request w).
  change (Typed.PATCH env request w) with (PATCH_of TypedRevision env request w).
  rewrite !(PATCH_valid _ env request body oid st) by done.
  rewrite findOneAndUpdate_ensured. cbv zeta.
  rewrite docs_requests_of, docs_of_ensured, Hfind, Hok.
  apply list_find_Some in Hfind as (_ & Hid & _).
  set (d' := apply_set (patch_fields env st) d).
  destruct (apply_set_patch_fields_lookup env st d) as (_ & _ & Hframe).
  fold d' in Hframe.
  assert (d' !! "value" = None) as Hv by (by rewrite Hframe).
  assert (∃ item, to_item (JObj d') = Some item) as [item Hitem].
  { unfold to_item, prop. rewrite Hframe by done. unfold has_id in Hid.
    destruct (d !! "_id") as [[| | | | | | | o] |]; try done. by eexists. }
  exists item, UNKNOWN_ERROR.
  unfold patch_response, shape_result.
  destruct findOneAndUpdate_shape; simpl.
  - rewrite lookup_insert_eq. simpl. by rewrite Hitem.
  - by rewrite Hv, Hitem.
Qed.

(** C10, evaluated.  [sample_world] holds one record; the status update
    [sample_patch] names it.  With a driver that returns the document,
    the revision that reads [result.value] answers with the
    input-validation response and the typed revision answers 200 with the
    updated record; with a driver that returns a [ModifyResult], the first
    answers 200 and the typed revision answers with the unknown-error
    response.  In all four runs the record is updated. *)
Theorem PATCH_revisions_disagree :
  let run_untyped shape :=
    @Untyped.PATCH (platform shape 10) later_env sample_patch sample_world in
  let run_typed shape :=
    @Typed.PATCH (platform shape 10) later_env sample_patch sample_world in
  (run_untyped DocumentShape).1 = inr (ServerResponse INVALID_INPUT)
  ∧ (run_typed DocumentShape).1
    = inr (JsonResponse 200 (BodyItem sample_updated_item))
  ∧ (run_untyped ModifyResultShape).1
    = inr (JsonResponse 200 (BodyItem sample_updated_item))
  ∧ (run_typed ModifyResultShape).1 = inr (ServerResponse UNKNOWN_ERROR)
  ∧ docs_of "requests" (run_untyped DocumentShape).2 = [sample_updated_doc]
  ∧ docs_of "requests" (run_typed DocumentShape).2 = [sample_updated_doc]
  ∧ docs_of "requests" (run_untyped ModifyResultShape).2 = [sample_updated_doc]
  ∧ docs_of "requests" (run_typed ModifyResultShape).2 = [sample_updated_doc].
Proof. cbv zeta. split_and!; by_evaluation. Qed.

(** ** Runs of the list handler *)

(** Page 1 of three pending records with a page size of 2: the two latest
    records, latest first, of 2 pages. *)
Example GET_lists_latest_first :
  @GET (platform DocumentShape 2) first_page_request three_world
  = (inr (JsonResponse 200
            (BodyList first_page
               {| page := 1; pageSize := 2; totalPages := 2; totalCount := 3 |})),
     (@GET (platform DocumentShape 2) first_page_request three_world).2).
Proof. by_evaluation. Qed.

Lemma GET_page_contents_witness :
  (mapM (λ d, to_item (JObj d))
     (@page_window (platform DocumentShape 2) 1
        (sorted_matching first_page_request three_world))
   = Some first_page)
  ∧ ∃ pg w',
      @GET (platform DocumentShape 2)
        (list_request [("page", "3"); ("status", "pending")]) three_world
      = (inr (JsonResponse 200 (BodyList [] pg)), w')
      ∧ page pg = 3.
Proof.
  split.
  - apply (proj1 (@GET_page_contents (platform DocumentShape 2)
                    first_page_request three_world eq_refl)
             200 first_page
             {| page := 1; pageSize := 2; totalPages := 2; totalCount := 3 |}
             (@GET (platform DocumentShape 2) first_page_request three_world).2).
    by_evaluation.
  - apply (proj2 (@GET_page_contents (platform DocumentShape 2)
                    (list_request [("page", "3"); ("status", "pending")])
                    three_world eq_refl) 3).
    + by_evaluation.
    + done.
    + intros s Hs. assert (s = js "pending") as ->.
      { assert (Some s = Some (js "pending")) as Heq
          by (rewrite <- Hs; by_evaluation).
        by injection Heq. }
      apply (bool_decide_eq_true_1 _). by_evaluation.
    + apply (Zle_bool_imp_le _ _). by_evaluation.
Defined.

Lemma ensureRequestsCollection_idempotent_witness :
  ensureRequestsCollection sample_world
  = (inr (), issue (ListCollections "requests") sample_world).
Proof.
  apply (proj1 (ensureRequestsCollection_idempotent sample_world)).
  apply (bool_decide_eq_true_1 _). by_evaluation.
Defined.

(** * Further properties of the route *)

#[local] Set Warnings "-clear-no-such-hyp".

(** ** The list handler: parameters *)

Lemma GET_rejects_unknown_status_aux `{Platform} request w s :
  searchParams_get request (js "status") = Some s →
  s ≠ [] → s ∉ ALLOWED_STATUSES →
  GET request w = (inr (ServerResponse INVALID_INPUT), w).
Proof.
  intros Hs Hne Hnot. unfold GET. rewrite Hs.
  destruct (parseInt10 _) as [p |]; [| done].
  destruct (p <? 1); [done |].
  destruct s as [| c t]; [done |].
  unfold includes. by rewrite bool_decide_eq_false_2.
Qed.

(** A [status] parameter that is present, not empty and not one of the four
    allowed strings gets the input-validation response before any driver
    call, whatever the page. *)
Theorem GET_rejects_unknown_status `{Platform} request w s :
  searchParams_get request (js "status") = Some s →
  s ≠ [] → s ∉ ALLOWED_STATUSES →
  GET request w = (inr (ServerResponse INVALID_INPUT), w).
Proof. apply GET_rejects_unknown_status_aux. Qed.

Lemma GET_rejects_unknown_status_witness :
  @GET (platform DocumentShape 10)
    (list_request [("page", "1"); ("status", "Pending")]) sample_world
  = (inr (ServerResponse INVALID_INPUT), sample_world).
Proof.
  apply (@GET_rejects_unknown_status (platform DocumentShape 10) _ _ (js "Pending")).
  - by_evaluation.
  - discriminate.
  - apply (bool_decide_eq_false_1 _). by_evaluation.
Defined.

(** The world that a run of [GET] leaves: the one it met, or the one after
    [ensureRequestsCollection] and the two queries. *)
Lemma GET_world `{Platform} request w :
  (GET request w).2 = w
  ∨ (GET request w).2
    = issue (Find "requests") (issue (CountDocuments "requests") (ensured w)).
Proof.
  unfold GET.
  destruct (parseInt10 _) as [p |]; [| by left].
  destruct (p <? 1); [by left |].
  destruct (match searchParams_get request (js "status") with
            | Some (c :: t) => _
            | _ => false
            end); [by left |].
  right. unfold try_catch, bind. rewrite ensure_run.
  unfold countDocuments, find_sorted_page. simpl.
  destruct (_ <? 0); simpl; [done |].
  by destruct (mapM _ _).
Qed.

(** [GET] only reads: every document of every collection stays as it is,
    every collection that exists stays as it is, and the only calls it
    issues are the listing and creation of the requests collection, the
    count and the find. *)
Theorem GET_reads_only `{Platform} request w :
  (∀ n, docs_of n (GET request w).2 = docs_of n w)
  ∧ (∀ n c, db w !! n = Some c → db (GET request w).2 !! n = Some c)
  ∧ (∃ new, calls (GET request w).2 = calls w ++ new
            ∧ ∀ c, c ∈ new →
                   c ∈ [ListCollections "requests"; CreateCollection "requests";
                        CountDocuments "requests"; Find "requests"]).
Proof.
  destruct (GET_world request w) as [-> | ->].
  - split_and!; [done | done |]. exists []. split; [by rewrite app_nil_r |].
    by intros c Hc%not_elem_of_nil.
  - split_and!.
    + intros n. by rewrite !docs_of_issue, docs_of_ensured.
    + intros n c Hc. simpl. unfold ensured. case_bool_decide as Hex; [done |].
      simpl. rewrite lookup_insert_ne; [done |]. intros <-. apply Hex. by eexists.
    + unfold ensured. case_bool_decide; simpl.
      * eexists. rewrite <- !app_assoc. split; [done |]. simpl. intros c Hc.
        repeat (apply elem_of_cons in Hc as [-> | Hc]);
          [by apply (bool_decide_unpack _).. | by apply not_elem_of_nil in Hc].
      * eexists. rewrite <- !app_assoc. split; [done |]. simpl. intros c Hc.
        repeat (apply elem_of_cons in Hc as [-> | Hc]);
          [by apply (bool_decide_unpack _).. | by apply not_elem_of_nil in Hc].
Qed.

(** ** The list handler: the size of a page and the number of pages *)

Lemma sorted_matching_length request w :
  length (sorted_matching request w) = length (matching request w).
Proof.
  unfold sorted_matching. by rewrite (Permutation_length (merge_sort_Permutation _ _)).
Qed.

Lemma total_pages_spec c ps :
  0 < ps → 0 ≤ c →
  1 ≤ total_pages c ps
  ∧ c ≤ total_pages c ps * ps
  ∧ (0 < c → (total_pages c ps - 1) * ps < c)
  ∧ (c = 0 → total_pages c ps = 1).
Proof.
  intros Hps Hc. unfold total_pages.
  pose proof (Qceiling_quotient_spec c ps Hps) as Hn. cbv zeta in Hn.
  split_and!; [lia | nia | nia | nia].
Qed.

(** In a successful list response, with a positive page size, the number of
    items is what is left of the matches after the pages before, capped at
    the page size.  So every page before the last is full, the last page
    is not empty, and a page has no items exactly when no record matches or
    the page lies beyond [totalPages]: the page count that [GET] reports is
    the number of pages that have items. *)
Theorem GET_items_count `{Platform} request w code items pg w' :
  0 < PAGINATION_PAGE_SIZE →
  GET request w = (inr (JsonResponse code (BodyList items pg)), w') →
  Z.of_nat (length items)
  = Z.max 0 (Z.min (pageSize pg) (totalCount pg - (page pg - 1) * pageSize pg))
  ∧ (page pg < totalPages pg → Z.of_nat (length items) = pageSize pg)
  ∧ (items = [] ↔ totalCount pg = 0 ∨ totalPages pg < page pg).
Proof.
  intros Hps Hget.
  destruct (GET_cases request w)
    as [(t & w1 & Hrun & _) | (p & items1 & w1 & Hrun & _ & Hp & _ & _ & Hitems & _)];
    rewrite Hrun in Hget; simplify_eq. simpl.
  unfold cursor_limit in Hitems.
  rewrite (proj2 (Z.eqb_neq _ 0)) in Hitems by lia.
  apply mapM_to_item_length in Hitems.
  rewrite length_take, length_drop, sorted_matching_length in Hitems.
  set (c := length (matching request w)) in *.
  destruct (total_pages_spec (Z.of_nat c) PAGINATION_PAGE_SIZE Hps ltac:(lia))
    as (H1 & Hup & Hlow & Hzero).
  rewrite Z.abs_eq in Hitems by lia.
  assert (Z.of_nat (length items)
          = Z.max 0 (Z.min PAGINATION_PAGE_SIZE
                       (Z.of_nat c - (p - 1) * PAGINATION_PAGE_SIZE))) as Hlen.
  { rewrite Hitems. rewrite Nat2Z.inj_min, Nat2Z.inj_sub_max.
    rewrite !Z2Nat.id by nia. lia. }
  revert H1 Hup Hlow Hzero.
  generalize (total_pages (Z.of_nat c) PAGINATION_PAGE_SIZE). intros T H1 Hup Hlow Hzero.
  split_and!; [done | |].
  - intros Hlt. assert (0 < Z.of_nat c) as Hc by lia. specialize (Hlow Hc).
    assert (p * PAGINATION_PAGE_SIZE ≤ (T - 1) * PAGINATION_PAGE_SIZE) by nia.
    lia.
  - rewrite <- length_zero_iff_nil. split.
    + intros Hz. rewrite Hz in Hlen.
      destruct (decide (c = 0%nat)) as [-> | Hc]; [by left |]. right.
      assert (0 < Z.of_nat c) as Hc' by lia. specialize (Hlow Hc').
      assert (Z.of_nat c ≤ (p - 1) * PAGINATION_PAGE_SIZE) by lia. nia.
    + intros [Hz | Hpast]; [lia |].
      assert (T * PAGINATION_PAGE_SIZE ≤ (p - 1) * PAGINATION_PAGE_SIZE) by nia.
      lia.
Qed.

Lemma GET_items_count_witness :
  let pg := {| page := 1; pageSize := 2; totalPages := 2; totalCount := 3 |} in
  Z.of_nat (length first_page)
  = Z.max 0 (Z.min (pageSize pg) (totalCount pg - (page pg - 1) * pageSize pg))
  ∧ (page pg < totalPages pg → Z.of_nat (length first_page) = pageSize pg)
  ∧ (first_page = [] ↔ totalCount pg = 0 ∨ totalPages pg < page pg).
Proof.
  apply (@GET_items_count (platform DocumentShape 2) first_page_request
           three_world 200 first_page
           {| page := 1; pageSize := 2; totalPages := 2; totalCount := 3 |}
           (@GET (platform DocumentShape 2) first_page_request three_world).2).
  - reflexivity.
  - by_evaluation.
Defined.




(** Without a [page] parameter, or with an empty one, a successful list
    response is page 1; without a [status] parameter, or with an empty one,
    it counts every record of the requests collection. *)
Theorem GET_defaults `{Platform} request w code items pg w' :
  GET request w = (inr (JsonResponse code (BodyList items pg)), w') →
  (searchParams_get request (js "page") = None
   ∨ searchParams_get request (js "page") = Some [] → page pg = 1)
  ∧ (searchParams_get request (js "status") = None
     ∨ searchParams_get request (js "status") = Some [] →
     totalCount pg = Z.of_nat (length (docs_of "requests" w))).
Proof.
  intros Hget.
  destruct (GET_cases request w)
    as [(t & w1 & Hrun & _) | (p & items1 & w1 & Hrun & Hp & _)];
    rewrite Hrun in Hget; simplify_eq. simpl. split.
  - intros Hnone. unfold requested_page in Hp.
    assert (or_string (searchParams_get request (js "page")) (js "1") = js "1")
      as Hdflt by (by destruct Hnone as [-> | ->]).
    rewrite Hdflt in Hp. by injection Hp.
  - intros Hnone.
    assert (requested_status request = None) as Hst
      by (unfold requested_status; by destruct Hnone as [-> | ->]).
    unfold matching. rewrite Hst. do 2 f_equal.
    induction (docs_of "requests" w) as [| d l IH]; [done |].
    rewrite filter_cons_True by done. by rewrite IH.
Qed.

Lemma GET_defaults_witness :
  let pg := {| page := 1; pageSize := 2; totalPages := 2; totalCount := 3 |} in
  (searchParams_get (list_request []) (js "page") = None
   ∨ searchParams_get (list_request []) (js "page") = Some [] → page pg = 1)
  ∧ (searchParams_get (list_request []) (js "status") = None
     ∨ searchParams_get (list_request []) (js "status") = Some [] →
     totalCount pg = Z.of_nat (length (docs_of "requests" three_world))).
Proof.
  apply (@GET_defaults (platform DocumentShape 2) (list_request []) three_world
           200 first_page
           {| page := 1; pageSize := 2; totalPages := 2; totalCount := 3 |}
           (@GET (platform DocumentShape 2) (list_request []) three_world).2).
  by_evaluation.
Defined.

(** ** The create handler: which response, and what is stored *)

Lemma PUT_unread env request w :
  json request = None →
  PUT env request w = (inr (ServerResponse UNKNOWN_ERROR), w).
Proof.
  intros Hj. unfold PUT, try_catch, bind, request_json. by rewrite Hj.
Qed.


(** A JSON response of [PUT] is a 201 whose body is the one document that
    has been appended to the requests collection.  The document has the six
    fields [_id], [requestorName], [itemRequested], [createdDate],
    [lastEditedDate], [status] and no other: nothing else of the request
    body is copied.  Its name and item are those of the request body, and
    its [_id] is the generated one, which no earlier record has. *)
Theorem PUT_stores_what_it_returns env request w code body w' :
  PUT env request w = (inr (JsonResponse code body), w') →
  code = 201
  ∧ ∃ payload d,
      json request = Some payload
      ∧ body = BodyDocument d
      ∧ docs_of "requests" w' = docs_of "requests" w ++ [d]
      ∧ (∀ n, n ≠ "requests" → docs_of n w' = docs_of n w)
      ∧ dom d = list_to_set ["_id"; "requestorName"; "itemRequested";
                             "createdDate"; "lastEditedDate"; "status"]
      ∧ d !! "requestorName" = prop payload "requestorName"
      ∧ d !! "itemRequested" = prop payload "itemRequested"
      ∧ d !! "_id" = Some (JOid (generated_id env))
      ∧ Forall (λ d0, d0 !! "_id" ≠ Some (JOid (generated_id env)))
          (docs_of "requests" w).
Proof.
  intros Hput.
  destruct (json request) as [payload |] eqn:Hj;
    [| rewrite PUT_unread in Hput by done; simplify_eq].
  destruct (classic_create payload) as [(name & item & Hn & Hi & Hln & Hli) | Hbad];
    [| rewrite (PUT_invalid _ _ payload) in Hput by done; simplify_eq].
  rewrite (PUT_valid env request payload name item) in Hput by done.
  cbv zeta in Hput.
  destruct (insert_refused _ _ _) eqn:Href; simplify_eq.
  split; [done |]. exists payload, (created_doc env name item).
  unfold insert_refused in Href. apply orb_false_elim in Href as [_ Hfresh].
  rewrite docs_requests_of, docs_of_ensured in Hfresh.
  split_and!; try done.
  - by rewrite docs_of_store, docs_requests_of, docs_of_ensured.
  - intros n Hne. by rewrite docs_of_store_ne, docs_of_issue, docs_of_ensured.
  - apply Forall_forall. intros d0 Hd0 Hid.
    assert (existsb (has_id (generated_id env)) (docs_of "requests" w) = true)
      as Hex; [| congruence].
    apply existsb_exists. exists d0. split; [by apply list_elem_of_In |].
    unfold has_id. rewrite Hid. by apply bool_decide_eq_true_2.
Qed.

Lemma PUT_stores_what_it_returns_witness :
  201 = 201
  ∧ ∃ payload d,
      json sample_create = Some payload
      ∧ BodyDocument (created_doc sample_env (js "Alice") (js "pen"))
        = BodyDocument d
      ∧ docs_of "requests" sample_world = docs_of "requests" empty_world ++ [d]
      ∧ (∀ n, n ≠ "requests" → docs_of n sample_world = docs_of n empty_world)
      ∧ dom d = list_to_set ["_id"; "requestorName"; "itemRequested";
                             "createdDate"; "lastEditedDate"; "status"]
      ∧ d !! "requestorName" = prop payload "requestorName"
      ∧ d !! "itemRequested" = prop payload "itemRequested"
      ∧ d !! "_id" = Some (JOid (generated_id sample_env))
      ∧ Forall (λ d0, d0 !! "_id" ≠ Some (JOid (generated_id sample_env)))
          (docs_of "requests" empty_world).
Proof.
  apply (PUT_stores_what_it_returns sample_env sample_create empty_world).
  by_evaluation.
Defined.

Lemma matches_created env name item query :
  matches query (created_doc env name item)
  = match query with
    | None => true
    | Some s => bool_decide (js "pending" = s)
    end.
Proof. by destruct query. Qed.

(** After [PUT] has answered with a JSON response, a successful list
    response counts one record more under no status filter and under the
    filter "pending", and the same number under any other filter. *)
Theorem PUT_then_GET_count `{Platform} env put lreq w code body w1 code1 items pg w2 :
  PUT env put w = (inr (JsonResponse code body), w1) →
  GET lreq w1 = (inr (JsonResponse code1 (BodyList items pg)), w2) →
  totalCount pg
  = Z.of_nat (length (matching lreq w))
    + match requested_status lreq with
      | None => 1
      | Some s => if bool_decide (s = js "pending") then 1 else 0
      end.
Proof.
  intros Hput Hget.
  destruct (PUT_cases env put w)
    as [(t & w' & Hrun & _)
       | (name & item & w' & Hrun & _ & _ & _ & _ & Hreq & _)];
    rewrite Hrun in Hput; simplify_eq.
  destruct (GET_cases lreq w1)
    as [(t & w' & Hrun' & _) | (p & items1 & w' & Hrun' & _)];
    rewrite Hrun' in Hget; simplify_eq. simpl.
  unfold matching. rewrite Hreq, filter_app, length_app, Nat2Z.inj_add.
  f_equal.
  rewrite filter_cons, filter_nil.
  destruct (decide _) as [Hm | Hm]; rewrite matches_created in Hm;
    destruct (requested_status lreq) as [s |]; simpl; try done;
    try (exfalso; by apply Hm).
  - apply bool_decide_unpack in Hm as <-. by rewrite bool_decide_eq_true_2.
  - rewrite bool_decide_eq_false_2; [done |]. intros ->.
    apply Hm. by apply bool_decide_pack.
Qed.

Lemma PUT_then_GET_count_witness :
  totalCount {| page := 1; pageSize := 10; totalPages := 1; totalCount := 1 |}
  = Z.of_nat (length (matching (list_request [("status", "pending")]) empty_world))
    + match requested_status (list_request [("status", "pending")]) with
      | None => 1
      | Some s => if bool_decide (s = js "pending") then 1 else 0
      end.
Proof.
  apply (@PUT_then_GET_count (platform DocumentShape 10) sample_env sample_create
           (list_request [("status", "pending")]) empty_world 201
           (BodyDocument (created_doc sample_env (js "Alice") (js "pen")))
           sample_world 200
           [listed "65f0a1b2c3d4e5f60718293a" "Alice" "pen" 1000]
           {| page := 1; pageSize := 10; totalPages := 1; totalCount := 1 |}
           (@GET (platform DocumentShape 10)
              (list_request [("status", "pending")]) sample_world).2).
  - by_evaluation.
  - by_evaluation.
Defined.

(** ** The status-update handlers: unknown records and the schema *)

(** A status update with a readable body that names no record of the
    requests collection changes no document.  The revision that reads
    [result.value] answers with the input-validation response whatever the
    driver returns; the typed revision does so when the driver returns
    [null], and answers with the unknown-error response when the driver
    returns a [ModifyResult]. *)
Theorem PATCH_unknown_record `{Platform} env request body oid st w :
  json request = Some body → patch_request body = Some (oid, st) →
  Forall (λ d, d !! "_id" ≠ Some (JOid oid)) (docs_of "requests" w) →
  (∀ rev n, docs_of n (PATCH_of rev env request w).2 = docs_of n w)
  ∧ (Untyped.PATCH env request w).1 = inr (ServerResponse INVALID_INPUT)
  ∧ (Typed.PATCH env request w).1
    = inr (ServerResponse match findOneAndUpdate_shape with
                          | DocumentShape => INVALID_INPUT
                          | ModifyResultShape => UNKNOWN_ERROR
                          end).
Proof.
  intros Hj Hreq Hnone.
  assert (list_find (λ d, has_id oid d) (docs_of "requests" w) = None) as Hfind.
  { apply list_find_None. eapply Forall_impl; [exact Hnone |].
    intros d Hd Hid. apply Hd. unfold has_id in Hid.
    destruct (d !! "_id") as [[| | | | | | | o] |]; try done.
    by apply bool_decide_unpack in Hid as ->. }
  assert (∀ rev, PATCH_of rev env request w
                 = (inr (patch_response rev (shape_result None)),
                    issue (FindOneAndUpdate "requests") (ensured w))) as Hrun.
  { intros rev. rewrite (PATCH_valid rev env request body oid st) by done.
    rewrite findOneAndUpdate_ensured. cbv zeta.
    by rewrite docs_requests_of, docs_of_ensured, Hfind. }
  split_and!.
  - intros rev n. rewrite Hrun. simpl. by rewrite docs_of_issue, docs_of_ensured.
  - change (Untyped.PATCH env request w) with (PATCH_of UntypedRevision env request w).
    rewrite Hrun. unfold patch_response, shape_result.
    by destruct findOneAndUpdate_shape.
  - change (Typed.PATCH env request w) with (PATCH_of TypedRevision env request w).
    rewrite Hrun. unfold patch_response, shape_result.
    by destruct findOneAndUpdate_shape.
Qed.

Lemma PATCH_unknown_record_witness :
  (∀ rev n, docs_of n (@PATCH_of (platform DocumentShape 10) rev later_env
                         sample_patch empty_world).2
            = docs_of n empty_world)
  ∧ (@Untyped.PATCH (platform DocumentShape 10) later_env sample_patch
       empty_world).1 = inr (ServerResponse INVALID_INPUT)
  ∧ (@Typed.PATCH (platform DocumentShape 10) later_env sample_patch
       empty_world).1 = inr (ServerResponse INVALID_INPUT).
Proof.
  apply (@PATCH_unknown_record (platform DocumentShape 10) later_env sample_patch
           (JObj (<["id" := JStr (js "65F0A1B2C3D4E5F60718293A")]>
                 (<["status" := JStr (js "approved")]> ∅)))
           (js "65f0a1b2c3d4e5f60718293a") (js "approved") empty_world).
  - reflexivity.
  - by_evaluation.
  - apply Forall_nil_2.
Defined.

(** Setting the status to an allowed string and the edit date to a date
    keeps a document within the schema of the requests collection. *)
Lemma schema_ok_patch env st (d : Document) :
  st ∈ ALLOWED_STATUSES →
  schema_ok requestsSchema d = true →
  schema_ok requestsSchema (apply_set (patch_fields env st) d) = true.
Proof.
  intros Hst Hok. rewrite apply_set_patch_fields.
  unfold schema_ok in *.
  cbn [required properties additionalProperties requestsSchema orb] in *.
  apply andb_prop in Hok as [[Hreq Hkeys]%andb_prop Hprops].
  apply andb_true_intro. split; [apply andb_true_intro; split |].
  - cbn [forallb] in *. rewrite !andb_true_iff, !bool_decide_eq_true in *.
    destruct Hreq as (? & ? & ? & ? & _).
    split_and!; try done; rewrite !lookup_insert_is_Some'; auto.
  - apply forallb_forall. intros [k v] Hin.
    apply list_elem_of_In, elem_of_map_to_list in Hin.
    destruct (decide (k = "lastEditedDate")) as [-> | Hne1]; [by vm_compute |].
    destruct (decide (k = "status")) as [-> | Hne2]; [by vm_compute |].
    rewrite !lookup_insert_ne in Hin by done.
    rewrite forallb_forall in Hkeys.
    apply (Hkeys (k, v)). by apply list_elem_of_In, elem_of_map_to_list.
  - cbn [forallb fst snd] in *.
    rewrite !andb_true_iff in Hprops.
    destruct Hprops as (Hid & Hname & Hitem & Hcreated & _ & _ & _).
    rewrite lookup_insert_eq.
    rewrite !(lookup_insert_ne _ "lastEditedDate") by done.
    rewrite lookup_insert_eq.
    rewrite !(lookup_insert_ne _ "status") by done.
    rewrite Hid, Hname, Hitem, Hcreated. simpl.
    unfold property_ok. simpl.
    rewrite andb_true_r. apply bool_decide_eq_true_2. exact Hst.
Qed.

(** A status update never takes a requests collection out of the schema:
    if every record satisfies [requestsSchema] before either revision of
    [PATCH] runs, every record does afterwards, with or without a validator
    on the collection. *)
Theorem PATCH_keeps_schema `{Platform} rev env request w :
  Forall (λ d, schema_ok requestsSchema d = true) (docs_of "requests" w) →
  Forall (λ d, schema_ok requestsSchema d = true)
    (docs_of "requests" (PATCH_of rev env request w).2).
Proof.
  intros Hall.
  destruct (json request) as [body |] eqn:Hj;
    [| by rewrite PATCH_unread].
  destruct (patch_request body) as [[oid st] |] eqn:Hreq;
    [| by rewrite (PATCH_invalid _ _ _ body)].
  destruct (PATCH_valid_cases rev env request body oid st w Hj Hreq)
    as [(t & w' & -> & Hsame) | (i & d & w' & -> & Hi & Hid & Hdocs & Hother)];
    simpl; [by rewrite Hsame |].
  rewrite Hdocs. apply Forall_insert; [done |].
  apply patch_request_Some in Hreq as (sid & _ & _ & _ & _ & Hst).
  apply schema_ok_patch; [done |].
  rewrite Forall_forall in Hall. apply Hall. by eapply list_elem_of_lookup_2.
Qed.

Lemma PATCH_keeps_schema_witness :
  Forall (λ d, schema_ok requestsSchema d = true)
    (docs_of "requests"
       (@PATCH_of (platform DocumentShape 10) TypedRevision later_env
          sample_patch sample_world).2).
Proof.
  apply (@PATCH_keeps_schema (platform DocumentShape 10)).
  change (docs_of "requests" sample_world)
    with [created_doc sample_env (js "Alice") (js "pen")].
  apply Forall_cons_2; [by_evaluation | apply Forall_nil_2].
Defined.

(** ** The schema as an invariant of the route *)

Lemma requests_of_ensured_lookup w :
  db (ensured w) !! "requests" = Some (requests_of (ensured w)).
Proof.
  unfold requests_of. by destruct (ensured_is_Some w) as [c ->].
Qed.

Lemma guarded_requests_of w :
  guarded w →
  validator (requests_of (ensured w)) = Some requestsSchema
  ∧ Forall (λ d, schema_ok requestsSchema d = true) (docs (requests_of (ensured w))).
Proof.
  unfold guarded, requests_of, ensured. intros Hg.
  case_bool_decide as Hex; simpl.
  - destruct (db w !! "requests") as [c |]; [done | by destruct Hex].
  - rewrite lookup_insert_eq. simpl. by split.
Qed.

Lemma guarded_store c w :
  validator c = Some requestsSchema →
  Forall (λ d, schema_ok requestsSchema d = true) (docs c) →
  guarded (store "requests" c w).
Proof. intros. unfold guarded, store. simpl. by rewrite lookup_insert_eq. Qed.

Lemma guarded_ensured w : guarded w → guarded (ensured w).
Proof.
  intros Hg. destruct (guarded_requests_of w Hg) as [Hv Hd].
  unfold guarded. by rewrite requests_of_ensured_lookup.
Qed.

Lemma guarded_issue c w : guarded w → guarded (issue c w).
Proof. done. Qed.

Lemma PUT_guarded env request w : guarded w → guarded (PUT env request w).2.
Proof.
  intros Hg.
  destruct (json request) as [body |] eqn:Hj; [| by rewrite PUT_unread].
  destruct (classic_create body) as [(name & item & Hn & Hi & Hln & Hli) | Hbad];
    [| by rewrite (PUT_invalid _ _ body)].
  rewrite (PUT_valid env request body name item) by done. cbv zeta.
  destruct (guarded_requests_of w Hg) as [Hv Hd].
  destruct (insert_refused _ _ _) eqn:Href; simpl.
  - by apply guarded_issue, guarded_ensured.
  - apply guarded_store; [done |]. simpl.
    apply Forall_app. split; [done |]. apply Forall_cons_2; [| done].
    unfold insert_refused in Href. apply orb_false_elim in Href as [Hok _].
    apply negb_false_iff in Hok. unfold validator_ok in Hok. by rewrite Hv in Hok.
Qed.

Lemma GET_guarded `{Platform} request w : guarded w → guarded (GET request w).2.
Proof.
  intros Hg. destruct (GET_world request w) as [-> | ->]; [done |].
  by apply guarded_issue, guarded_issue, guarded_ensured.
Qed.

(** The world that a status update with a readable body leaves. *)
Lemma PATCH_world `{Platform} rev env request body oid st w :
  json request = Some body → patch_request body = Some (oid, st) →
  (PATCH_of rev env request w).2
  = store "requests" (patched (requests_of (ensured w)) oid (patch_fields env st))
      (issue (FindOneAndUpdate "requests") (ensured w)).
Proof.
  intros Hj Hreq. rewrite (PATCH_valid rev env request body oid st) by done.
  rewrite findOneAndUpdate_ensured. cbv zeta. unfold patched.
  assert (∀ w0, db w0 !! "requests" = Some (requests_of (ensured w)) →
                store "requests" (requests_of (ensured w)) w0 = w0) as Hid.
  { intros [m cs] Hm. unfold store. simpl in *. by rewrite insert_id. }
  pose proof (requests_of_ensured_lookup w) as Hlook.
  destruct (list_find _ _) as [[i d] |]; simpl.
  - destruct (validator_ok _ _); simpl; [done |].
    unfold on_error. simpl. by rewrite Hid.
  - by rewrite Hid.
Qed.

Lemma patched_guarded c oid env st :
  st ∈ ALLOWED_STATUSES →
  Forall (λ d, schema_ok requestsSchema d = true) (docs c) →
  Forall (λ d, schema_ok requestsSchema d = true)
    (docs (patched c oid (patch_fields env st))).
Proof.
  intros Hst Hall. unfold patched.
  destruct (list_find _ _) as [[i d] |] eqn:Hfind; [| done].
  destruct (validator_ok _ _); [| done]. simpl.
  apply Forall_insert; [done |]. apply schema_ok_patch; [done |].
  apply list_find_Some in Hfind as (Hi & _).
  rewrite Forall_forall in Hall. apply Hall. by eapply list_elem_of_lookup_2.
Qed.

Lemma validator_patched c oid fields :
  validator (patched c oid fields) = validator c.
Proof.
  unfold patched. destruct (list_find _ _) as [[i d] |]; [| done].
  by destruct (validator_ok _ _).
Qed.

Lemma PATCH_guarded `{Platform} rev env request w :
  guarded w → guarded (PATCH_of rev env request w).2.
Proof.
  intros Hg.
  destruct (json request) as [body |] eqn:Hj; [| by rewrite PATCH_unread].
  destruct (patch_request body) as [[oid st] |] eqn:Hreq;
    [| by rewrite (PATCH_invalid _ _ _ body)].
  rewrite (PATCH_world rev env request body oid st) by done.
  destruct (guarded_requests_of w Hg) as [Hv Hd].
  apply patch_request_Some in Hreq as (sid & _ & _ & _ & _ & Hst).
  apply guarded_store; [by rewrite validator_patched | by apply patched_guarded].
Qed.

(** In a database that has no requests collection yet, after any sequence
    of calls of the route (creates, lists and status updates of either
    revision, with any bodies) the requests collection, if there is one,
    carries the validator of [ensureRequestsCollection], and every record in
    it satisfies [requestsSchema]. *)
Theorem route_keeps_schema `{Platform} cs w :
  db w !! "requests" = None →
  (∀ c, db (run_calls cs w) !! "requests" = Some c →
        validator c = Some requestsSchema)
  ∧ Forall (λ d, schema_ok requestsSchema d = true)
      (docs_of "requests" (run_calls cs w)).
Proof.
  intros Hnone.
  assert (guarded w) as Hg by (unfold guarded; by rewrite Hnone).
  clear Hnone. revert w Hg. unfold run_calls.
  induction cs as [| [[h env] request] cs IH]; intros w Hg; simpl.
  - unfold guarded, docs_of in *. destruct (db w !! "requests") as [c |].
    + destruct Hg as [Hv Hd]. split; [by intros ? [= <-] | done].
    + split; [done | apply Forall_nil_2].
  - apply IH. destruct h as [| | rev]; simpl.
    + by apply PUT_guarded.
    + by apply GET_guarded.
    + by apply PATCH_guarded.
Qed.

Lemma route_keeps_schema_witness :
  (∀ c, db (@run_calls (platform DocumentShape 10)
              [(HPUT, sample_env, sample_create);
               (HPATCH TypedRevision, later_env, sample_patch);
               (HPUT, later_env, astral_create);
               (HGET, sample_env, first_page_request)] empty_world)
          !! "requests" = Some c →
        validator c = Some requestsSchema)
  ∧ Forall (λ d, schema_ok requestsSchema d = true)
      (docs_of "requests"
         (@run_calls (platform DocumentShape 10)
            [(HPUT, sample_env, sample_create);
             (HPATCH TypedRevision, later_env, sample_patch);
             (HPUT, later_env, astral_create);
             (HGET, sample_env, first_page_request)] empty_world)).
Proof.
  apply (@route_keeps_schema (platform DocumentShape 10)). reflexivity.
Defined.

(** ** Status updates one after the other *)

Lemma has_id_patch oid env st (d : Document) :
  has_id oid (apply_set (patch_fields env st) d) = has_id oid d.
Proof.
  unfold has_id. rewrite apply_set_patch_fields. by rewrite !lookup_insert_ne.
Qed.

Lemma apply_set_patch_twice env1 st1 env2 st2 (d : Document) :
  apply_set (patch_fields env2 st2) (apply_set (patch_fields env1 st1) d)
  = apply_set (patch_fields env2 st2) d.
Proof.
  rewrite !apply_set_patch_fields. apply map_eq. intros k.
  destruct (decide (k = "lastEditedDate")) as [-> | Hne1];
    [by rewrite !lookup_insert_eq |].
  rewrite !(lookup_insert_ne _ "lastEditedDate") by done.
  destruct (decide (k = "status")) as [-> | Hne2];
    [by rewrite !lookup_insert_eq |].
  by rewrite !lookup_insert_ne.
Qed.

Lemma list_find_insert_same {A} (P : A → Prop) `{∀ x, Decision (P x)}
    (l : list A) i x y :
  list_find P l = Some (i, x) → P y → list_find P (<[i := y]> l) = Some (i, y).
Proof.
  intros (Hi & Hx & Hbefore)%list_find_Some Hy. apply list_find_Some. split_and!.
  - apply list_lookup_insert_eq. by eapply lookup_lt_Some.
  - done.
  - intros j z Hj Hlt. rewrite list_lookup_insert_ne in Hj by lia. by eapply Hbefore.
Qed.

Lemma patched_patched c oid env1 st1 env2 st2 :
  validator c = None ∨ validator c = Some requestsSchema →
  st2 ∈ ALLOWED_STATUSES →
  patched (patched c oid (patch_fields env1 st1)) oid (patch_fields env2 st2)
  = patched c oid (patch_fields env2 st2).
Proof.
  intros Hv Hst. unfold patched at 2.
  destruct (list_find _ (docs c)) as [[i d] |] eqn:Hfind; [| done].
  destruct (validator_ok c (apply_set (patch_fields env1 st1) d)) eqn:Hok1;
    [| done].
  pose proof Hfind as (_ & Hid & _)%list_find_Some.
  unfold patched. cbn [docs validator].
  rewrite (list_find_insert_same _ _ i d (apply_set (patch_fields env1 st1) d))
    by (done || by rewrite has_id_patch).
  rewrite Hfind, apply_set_patch_twice.
  assert (validator_ok
            {| validator := validator c;
               docs := <[i := apply_set (patch_fields env1 st1) d]> (docs c) |}
            (apply_set (patch_fields env2 st2) d) = true) as Hok2.
  { unfold validator_ok in *. cbn [validator].
    destruct Hv as [-> | Hv]; [done |]. rewrite Hv in *.
    rewrite <- (apply_set_patch_twice env1 st1). by apply schema_ok_patch. }
  rewrite Hok2.
  assert (validator_ok c (apply_set (patch_fields env2 st2) d) = true) as ->
    by exact Hok2.
  by rewrite list_insert_insert_eq.
Qed.

Lemma requests_of_ensured_store c w :
  requests_of (ensured (store "requests" c w)) = c.
Proof.
  unfold requests_of, ensured.
  rewrite bool_decide_eq_true_2; simpl; rewrite lookup_insert_eq;
    [done | by eexists].
Qed.

Lemma validator_requests_of w :
  (∀ c, db w !! "requests" = Some c →
        validator c = None ∨ validator c = Some requestsSchema) →
  validator (requests_of (ensured w)) = None
  ∨ validator (requests_of (ensured w)) = Some requestsSchema.
Proof.
  intros Hw. unfold requests_of, ensured. case_bool_decide as Hex; simpl.
  - destruct (db w !! "requests") as [c |]; [by apply Hw | by destruct Hex].
  - rewrite lookup_insert_eq. by right.
Qed.

(** The last status update wins.  Where the requests collection has the
    validator of [ensureRequestsCollection] or none, two status updates of
    the same record, one after the other, leave the documents that the
    second alone would leave: the status and the edit date of the second,
    whatever revision handled either. *)
Theorem PATCH_last_write_wins `{Platform} rev1 rev2 env1 env2 request1 request2
    body1 body2 oid st1 st2 w :
  (∀ c, db w !! "requests" = Some c →
        validator c = None ∨ validator c = Some requestsSchema) →
  json request1 = Some body1 → patch_request body1 = Some (oid, st1) →
  json request2 = Some body2 → patch_request body2 = Some (oid, st2) →
  ∀ n, docs_of n (PATCH_of rev2 env2 request2
                    (PATCH_of rev1 env1 request1 w).2).2
       = docs_of n (PATCH_of rev2 env2 request2 w).2.
Proof.
  intros Hw Hj1 Hreq1 Hj2 Hreq2 n.
  rewrite (PATCH_world rev1 env1 request1 body1 oid st1) by done.
  rewrite !(PATCH_world rev2 env2 request2 body2 oid st2) by done.
  rewrite requests_of_ensured_store.
  pose proof Hreq2 as (sid & _ & _ & _ & _ & Hst)%patch_request_Some.
  rewrite patched_patched by (done || by apply validator_requests_of).
  destruct (decide (n = "requests")) as [-> | Hne].
  - by rewrite !docs_of_store.
  - by rewrite !docs_of_store_ne, !docs_of_issue, !docs_of_ensured,
         docs_of_store_ne, docs_of_issue, docs_of_ensured.
Qed.

Lemma PATCH_last_write_wins_witness :
  docs_of "requests"
    (@PATCH_of (platform DocumentShape 10) TypedRevision later_env
       second_patch
       (@PATCH_of (platform DocumentShape 10) UntypedRevision
          sample_env sample_patch sample_world).2).2
  = docs_of "requests"
      (@PATCH_of (platform DocumentShape 10) TypedRevision later_env
         second_patch sample_world).2.
Proof.
  generalize "requests"%string.
  apply (@PATCH_last_write_wins (platform DocumentShape 10) UntypedRevision
           TypedRevision sample_env later_env sample_patch second_patch
           (JObj (<["id" := JStr (js "65F0A1B2C3D4E5F60718293A")]>
                 (<["status" := JStr (js "approved")]> ∅)))
           (JObj (<["id" := JStr (js "65f0a1b2c3d4e5f60718293a")]>
                 (<["status" := JStr (js "completed")]> ∅)))
           (js "65f0a1b2c3d4e5f60718293a") (js "approved") (js "completed")
           sample_world).
  - intros c Hc. right.
    assert (Some c = Some {| validator := Some requestsSchema;
                             docs := [created_doc sample_env (js "Alice") (js "pen")] |})
      as [= ->] by (rewrite <- Hc; by_evaluation).
    reflexivity.
  - reflexivity.
  - by_evaluation.
  - reflexivity.
  - by_evaluation.
Defined.

(** ** Create, then update *)



(** ** The first revision of the list handler *)

(** The revisions of [GET] agree on every request whose [status] parameter
    is absent, empty or allowed: the check that the later revisions add
    changes nothing there. *)
Theorem Legacy_GET_agrees `{Platform} request w :
  (∀ s, requested_status request = Some s → s ∈ ALLOWED_STATUSES) →
  Legacy.GET request w = GET request w.
Proof.
  intros Hst. unfold Legacy.GET, GET, requested_status in *.
  destruct (parseInt10 _) as [p |]; [| done].
  destruct (p <? 1); [done |].
  destruct (searchParams_get request (js "status")) as [[| c t] |]; try done.
  unfold includes. by rewrite bool_decide_eq_true_2 by by apply Hst.
Qed.

Lemma Legacy_GET_agrees_witness :
  @Legacy.GET (platform DocumentShape 2) first_page_request three_world
  = @GET (platform DocumentShape 2) first_page_request three_world.
Proof.
  apply (@Legacy_GET_agrees (platform DocumentShape 2)).
  intros s Hs.
  assert (Some s = Some (js "pending")) as [= ->] by (rewrite <- Hs; by_evaluation).
  apply (bool_decide_eq_true_1 _). by_evaluation.
Defined.

(** A document within the schema has an allowed status. *)
Lemma schema_ok_status (d : Document) :
  schema_ok requestsSchema d = true →
  ∃ s, d !! "status" = Some (JStr s) ∧ s ∈ ALLOWED_STATUSES.
Proof.
  unfold schema_ok.
  cbn [required properties additionalProperties requestsSchema orb forallb fst snd].
  rewrite !andb_true_iff.
  intros [[(_ & _ & _ & Hreq & _) _] (_ & _ & _ & _ & _ & Hprop & _)].
  apply bool_decide_eq_true in Hreq as [v Hv]. rewrite Hv in *.
  unfold property_ok in Hprop. simpl in Hprop.
  destruct v as [| | | s | | | |]; try done.
  exists s. split; [done |].
  rewrite andb_true_r in Hprop. by apply bool_decide_eq_true in Hprop.
Qed.

(** Where the later revisions refuse a [status] that is not allowed, the
    first revision queries the database with it.  With a readable page, a
    positive page size and a requests collection whose records satisfy the
    schema, it answers 200 with no items, a count of 0 and 1 page. *)
Theorem Legacy_GET_unknown_status `{Platform} request w s p :
  0 < PAGINATION_PAGE_SIZE →
  requested_page request = Some p → 1 ≤ p →
  requested_status request = Some s → s ∉ ALLOWED_STATUSES →
  Forall (λ d, schema_ok requestsSchema d = true) (docs_of "requests" w) →
  Legacy.GET request w
  = (inr (JsonResponse 200
            (BodyList []
               {| page := p; pageSize := PAGINATION_PAGE_SIZE;
                  totalPages := 1; totalCount := 0 |})),
     issue (Find "requests") (issue (CountDocuments "requests") (ensured w)))
  ∧ GET request w = (inr (ServerResponse INVALID_INPUT), w).
Proof.
  intros Hps Hp H1 Hs Hnot Hall.
  unfold requested_status in Hs.
  destruct (searchParams_get request (js "status")) as [[| c t] |] eqn:Hq;
    simplify_eq.
  split; [| by apply (GET_rejects_unknown_status_aux request w (c :: t))].
  assert (filter (λ d, matches (Some (c :: t)) d) (docs_of "requests" w) = [])
    as Hnone.
  { induction Hall as [| d l Hd _ IH]; [done |].
    rewrite filter_cons_False; [done |].
    destruct (schema_ok_status d Hd) as (s' & Hs' & Hin).
    unfold matches. rewrite Hs'. intros Heq%bool_decide_unpack. by subst. }
  unfold Legacy.GET. fold (requested_page request). rewrite Hp, Hq.
  rewrite (proj2 (Z.ltb_ge p 1)) by done.
  unfold try_catch, bind. rewrite ensure_run.
  unfold countDocuments, find_sorted_page. simpl.
  rewrite (proj2 (Z.ltb_ge _ 0)) by nia.
  unfold matches in Hnone.
  rewrite docs_of_issue, !docs_of_ensured, Hnone. simpl.
  unfold cursor_limit. rewrite (proj2 (Z.eqb_neq _ 0)) by lia.
  change (merge_sort createdDate_desc []) with (@nil Document).
  rewrite drop_nil, take_nil. simpl.
  unfold total_pages. rewrite Qceiling_quotient by done.
  change (- 0) with 0. by rewrite Z.div_0_l by lia.
Qed.

Lemma Legacy_GET_unknown_status_witness :
  @Legacy.GET (platform DocumentShape 10)
    (list_request [("status", "done")]) sample_world
  = (inr (JsonResponse 200
            (BodyList []
               {| page := 1; pageSize := 10; totalPages := 1; totalCount := 0 |})),
     issue (Find "requests")
       (issue (CountDocuments "requests") (ensured sample_world)))
  ∧ @GET (platform DocumentShape 10) (list_request [("status", "done")])
      sample_world
    = (inr (ServerResponse INVALID_INPUT), sample_world).
Proof.
  apply (@Legacy_GET_unknown_status (platform DocumentShape 10)
           (list_request [("status", "done")]) sample_world (js "done") 1).
  - reflexivity.
  - by_evaluation.
  - done.
  - by_evaluation.
  - apply (bool_decide_eq_false_1 _). by_evaluation.
  - change (docs_of "requests" sample_world)
      with [created_doc sample_env (js "Alice") (js "pen")].
    apply Forall_cons_2; [by_evaluation | apply Forall_nil_2].
Defined.

(** * lib/mongodb *)

Section mongodb.
Import Mongodb.
Variable net : Network.

Lemma ensure_promise_spec uri g g1 :
  ensure_promise net uri g = inr g1 →
  is_Some (_mongoClientPromise g1)
  ∧ match _mongoClientPromise g with
    | Some p => g1 = g
    | None => _mongoClientPromise g1
              = Some {| client := {| client_uri := uri |};
                        fulfilled := reachable net uri |}
              ∧ constructed g1 = constructed g ++ [uri]
    end.
Proof.
  unfold ensure_promise, new_MongoClient.
  destruct (_mongoClientPromise g) as [p |] eqn:Hp.
  - intros [= <-]. rewrite Hp. by split; [eexists |].
  - destruct (well_formed net uri); [| done]. intros [= <-]. simpl.
    by split; [eexists |].
Qed.


Lemma module_init_global env g m g1 :
  module_init net env g = inr (m, g1) →
  clientPromise m = _mongoClientPromise g1
  ∧ is_Some (_mongoClientPromise g1)
  ∧ dbName m = text (MONGODB_DB env)
  ∧ match _mongoClientPromise g with
    | Some p => g1 = g
    | None => _mongoClientPromise g1
              = Some {| client := {| client_uri := text (MONGODB_URI env) |};
                        fulfilled := reachable net (text (MONGODB_URI env)) |}
              ∧ constructed g1 = constructed g ++ [text (MONGODB_URI env)]
    end.
Proof.
  unfold module_init.
  destruct (falsy (MONGODB_URI env)); [done |].
  destruct (falsy (MONGODB_DB env)); [done |].
  destruct (ensure_promise net _ g) as [e | g'] eqn:Hens; [done |].
  intros [= <- <-]. by destruct (ensure_promise_spec _ _ _ Hens).
Qed.

(** Once a promise is stored, evaluating the module again changes nothing
    in [global]. *)
Lemma reloads_stored envs g p :
  _mongoClientPromise g = Some p →
  (reloads net envs g).2 = g
  ∧ Forall (λ out, ∀ m, out = inr m → clientPromise m = Some p)
      (reloads net envs g).1.
Proof.
  intros Hp. induction envs as [| env envs [IHg IHo]]; simpl; [by split |].
  destruct (module_init net env g) as [e | [m g1]] eqn:Hinit.
  - destruct (reloads net envs g) as [outs g']. simpl in *.
    split; [done |]. by apply Forall_cons_2.
  - destruct (module_init_global _ _ _ _ Hinit) as (Hm & _ & _ & Hg).
    rewrite Hp in Hg. subst g1.
    destruct (reloads net envs g) as [outs g']. simpl in *.
    split; [done |]. apply Forall_cons_2; [| done].
    intros m' [= <-]. by rewrite Hm.
Qed.

(** However often the module is evaluated on one [global], and whatever
    the environment of each evaluation is, at most one client is
    constructed, and every evaluation that succeeds exports the same
    promise, the one that [global] holds in the end. *)
Theorem reloads_share_one_client envs :
  let run := reloads net envs fresh_global in
  (length (constructed run.2) ≤ 1)%nat
  ∧ Forall (λ out, ∀ m, out = inr m →
                        clientPromise m = _mongoClientPromise run.2
                        ∧ is_Some (clientPromise m))
      run.1.
Proof.
  cbv zeta. generalize (eq_refl : constructed fresh_global = []).
  generalize (eq_refl : _mongoClientPromise fresh_global = None).
  generalize fresh_global. intros g Hnone Hcons.
  induction envs as [| env envs IH]; simpl.
  - rewrite Hcons. split; [simpl; lia | done].
  - destruct (module_init net env g) as [e | [m g1]] eqn:Hinit.
    + destruct (reloads net envs g) as [outs g']. simpl in *.
      destruct IH as [IHc IHo]. split; [done |]. by apply Forall_cons_2.
    + destruct (module_init_global _ _ _ _ Hinit) as (Hm & [p Hp] & _ & Hg).
      rewrite Hnone in Hg. destruct Hg as [_ Hc1].
      destruct (reloads_stored envs g1 p Hp) as [Hg' Hall].
      destruct (reloads net envs g1) as [outs g']. simpl in *. subst g'.
      split.
      * rewrite Hc1, Hcons. simpl. lia.
      * apply Forall_cons_2.
        -- intros m' [= <-]. rewrite Hm, Hp. by split; [| eexists].
        -- eapply Forall_impl; [exact Hall |]. intros out Hout m' Hm'.
           rewrite (Hout m' Hm'), Hp. by split; [| eexists].
Qed.

(** A reload with a changed environment keeps the connection of the first
    evaluation and takes the database name of the second: [getDb] of the
    reloaded module returns the database named by the new [MONGODB_DB] on
    the client of the old [MONGODB_URI], no second client is constructed,
    and if the first connection was rejected, [getDb] rejects again. *)
Theorem reload_keeps_client env1 env2 m1 g1 :
  module_init net env1 fresh_global = inr (m1, g1) →
  falsy (MONGODB_URI env2) = false → falsy (MONGODB_DB env2) = false →
  ∃ m2,
    module_init net env2 g1 = inr (m2, g1)
    ∧ constructed g1 = [text (MONGODB_URI env1)]
    ∧ getDb m2
      = if reachable net (text (MONGODB_URI env1))
        then inr {| db_client := {| client_uri := text (MONGODB_URI env1) |};
                    db_name := text (MONGODB_DB env2) |}
        else inl ConnectionRejected.
Proof.
  intros Hinit Huri Hdb.
  destruct (module_init_global _ _ _ _ Hinit) as (Hm1 & _ & _ & Hp & Hc).
  simpl in Hp, Hc.
  unfold module_init. rewrite Huri, Hdb. unfold ensure_promise. rewrite Hp.
  eexists. split_and!; [done | done |].
  unfold getDb. simpl. rewrite Hp. simpl. by destruct (reachable net _).
Qed.

(** The later revisions of the module behave as the first: the fallback
    to a new connection never runs. *)
Theorem module_init_revised_same env g :
  MongodbRevised.module_init net (MONGODB_URI env) (MONGODB_DB env) g
  = module_init net env g.
Proof.
  unfold MongodbRevised.module_init, module_init.
  destruct (falsy (MONGODB_URI env)); [done |].
  destruct (falsy (MONGODB_DB env)); [done |].
  destruct (ensure_promise net _ g) as [e | g1] eqn:Hens; [done |].
  destruct (ensure_promise_spec _ _ _ Hens) as [[p Hp] _]. by rewrite Hp.
Qed.

End mongodb.

Lemma reload_keeps_client_witness :
  ∃ m2 g1,
    Mongodb.module_init sample_network changed_process_env g1 = inr (m2, g1)
    ∧ Mongodb.constructed g1 = ["mongodb://db.example/"]
    ∧ Mongodb.getDb m2
      = inr {| Mongodb.db_client := {| Mongodb.client_uri := "mongodb://db.example/" |};
               Mongodb.db_name := "staging" |}.
Proof.
  destruct (reload_keeps_client sample_network sample_process_env
              changed_process_env
              {| Mongodb.clientPromise :=
                   Some {| Mongodb.client :=
                             {| Mongodb.client_uri := "mongodb://db.example/" |};
                           Mongodb.fulfilled := true |};
                 Mongodb.dbName := "portal" |}
              {| Mongodb._mongoClientPromise :=
                   Some {| Mongodb.client :=
                             {| Mongodb.client_uri := "mongodb://db.example/" |};
                           Mongodb.fulfilled := true |};
                 Mongodb.constructed := ["mongodb://db.example/"] |}
              eq_refl eq_refl eq_refl) as (m2 & Hinit & Hc & Hdb).
  exists m2. eexists. split_and!; [exact Hinit | exact Hc | exact Hdb].
Defined.
